(** * BLE_Serial: subscription registries, timeout-bounded waits and bridge teardown

    A shallow embedding of the parts of BLE_Serial that carry its
    subscription and lifecycle logic:

    - [WaitWithTimeout] and the [WINRT_CALL_BEGIN]/[WINRT_CALL_END] macros
      (src/platform/windows/bluetooth.cpp);
    - [WindowsBluetoothGattCharacteristic::Subscribe], [Unsubscribe] and
      [UnsubscribeAll] (same file);
    - [COMPort::Subscribe] with its poll thread, [Unsubscribe],
      [UnsubscribeAll], [Read] and [Close] (src/com.cpp and
      src/platform/windows/com.cpp);
    - the teardown sequence of [Connect] and the handlers of [main]
      (src/main.cpp);
    - the text forms of addresses and UUIDs (src/bluetooth.cpp and
      src/platform/windows/bluetooth.cpp);
    - [ScanDevices], [FindDevice], [OpenConnection], [FetchCharacteristics],
      [GetCharacteristic] and [Read] (src/platform/windows/bluetooth.cpp);
    - the constructor of [COMPort] (src/platform/windows/com.cpp);
    - [ParamHelper] and the argument conversions of the connect command
      (src/main.cpp).

    C++ exceptions, undefined behaviour and blocking forever are outcomes of
    a small state monad.  Everything the surroundings decide (what an
    asynchronous operation does, what [ReadFile] returns, which thread wins
    a mutex, whether a listener returns or throws) is an explicit argument
    of the operation that depends on it. *)

From stdpp Require Import base list strings pretty.
From Stdlib Require Import ZArith.
From Stdlib.Strings Require Import Byte Ascii.

(* ================================================================= *)
(** * Outcomes of a call *)

(** The exceptions that cross the functions modelled here.
    [winrt::hresult_error] carries the platform's code; [message] is the text
    [err.message()] yields for it. *)
Inductive Exception : Type :=
| BluetoothException (m_message : string)
| COMException (m_message : string)
| hresult_error (code : Z) (message : string).

(** A call on an object of state [S] returns, throws, blocks forever or has
    no defined behaviour (an out-of-range access to a [std::vector]). *)
Inductive Outcome (S A : Type) : Type :=
| Returns (a : A) (s : S)
| Throws (e : Exception) (s : S)
| Hangs (s : S)
| Undefined.
Arguments Returns {S A} a s.
Arguments Throws {S A} e s.
Arguments Hangs {S A} s.
Arguments Undefined {S A}.

Definition M (S A : Type) : Type := S → Outcome S A.

#[export] Instance M_ret {S} : MRet (M S) := λ A a s, Returns a s.

#[export] Instance M_bind {S} : MBind (M S) := λ A B f m s,
  match m s with
  | Returns a s' => f a s'
  | Throws e s' => Throws e s'
  | Hangs s' => Hangs s'
  | Undefined => Undefined
  end.

Definition throw {S A} (e : Exception) : M S A := λ s, Throws e s.
Definition undefined_behaviour {S A} : M S A := λ _, Undefined.
Definition blocks_forever {S A} : M S A := λ s, Hangs s.
Definition gets {S A} (f : S → A) : M S A := λ s, Returns (f s) s.
Definition modify {S} (f : S → S) : M S unit := λ s, Returns tt (f s).
Definition when {S} (b : bool) (m : M S unit) : M S unit :=
  if b then m else mret tt.

(** Run a computation on a component [get s] of a larger state. *)
Definition zoom {S T A} (get : T → S) (set : S → T → T) (m : M S A) : M T A :=
  λ t, match m (get t) with
       | Returns a s => Returns a (set s t)
       | Throws e s => Throws e (set s t)
       | Hangs s => Hangs (set s t)
       | Undefined => Undefined
       end.

(** A listener is a [std::function<void(std::vector<uint8_t>)>]; the model
    keeps its identity and records each invocation with the bytes passed. *)
Definition Listener : Type := string.

Inductive Event : Type :=
| Invoke (callback : Listener) (data : list byte)
| Sleep (milliseconds : nat).

(* ================================================================= *)
(** * WaitWithTimeout and the WINRT_CALL macros *)

Inductive AsyncStatus : Type := Started | Completed | Error | Canceled.

#[export] Instance AsyncStatus_eq_dec : EqDecision AsyncStatus.
Proof. solve_decision. Defined.

(** Clock readings are in milliseconds; [timeout] is a [std::chrono::seconds]. *)
Definition seconds (s : nat) : nat := 1000 * s.

(** An [IAsyncOperation<R>]: it stays [Started] until the platform moves it to
    [terminal] at instant [finishes_at] ([None]: it never leaves [Started]). *)
Record IAsyncOperation (R : Type) : Type := {
  finishes_at : option nat;
  terminal : AsyncStatus;
  GetResults : R;
  ErrorCode : Z;
  ErrorMessage : string;
}.
Arguments finishes_at {R} _.
Arguments terminal {R} _.
Arguments GetResults {R} _.
Arguments ErrorCode {R} _.
Arguments ErrorMessage {R} _.

Definition Status {R} (task : IAsyncOperation R) (now : nat) : AsyncStatus :=
  match finishes_at task with
  | Some t => if decide (t ≤ now) then terminal task else Started
  | None => Started
  end.

(** One blocking call: the operation, the clock reading when the wait starts
    and, for each return of [condition.wait_until] before the deadline
    (completion signal or spurious wake-up), the time spent blocked.  Once
    [wakes] is used up [wait_until] returns at the deadline. *)
Record AsyncCall (R : Type) : Type := {
  task : IAsyncOperation R;
  now : nat;
  wakes : list nat;
}.
Arguments task {R} _.
Arguments now {R} _.
Arguments wakes {R} _.

(** The [while] loop of [WaitWithTimeout]; the result is the clock reading
    at which the loop is left. *)
Fixpoint wait_loop {R} (task : IAsyncOperation R) (deadline : nat)
    (wakes : list nat) (now : nat) : nat :=
  if decide (now < deadline ∧ Status task now = Started) then
    match wakes with
    | [] => deadline
    | d :: wakes' => wait_loop task deadline wakes' (Nat.min deadline (now + d))
    end
  else now.

Definition deadline_of {R} (call : AsyncCall R) (timeout : nat) : nat :=
  now call + seconds timeout.

Definition wait_exit {R} (call : AsyncCall R) (timeout : nat) : nat :=
  wait_loop (task call) (deadline_of call timeout) (wakes call) (now call).

Definition WaitWithTimeout {S R} (call : AsyncCall R) (timeout : nat) : M S R :=
  match Status (task call) (wait_exit call timeout) with
  | Completed => mret (GetResults (task call))
  | Error => throw (hresult_error (ErrorCode (task call)) (ErrorMessage (task call)))
  | Canceled => throw (BluetoothException "Operation cancelled")
  | Started => throw (BluetoothException "Operation timed out")
  end.

(** [WINRT_CALL_BEGIN { body } WINRT_CALL_END]. *)
Definition WINRT_CALL {S A} (body : M S A) : M S A := λ s,
  match body s with
  | Throws (hresult_error code message) s' =>
      Throws (BluetoothException
                ("Bluetooth error. Code: " +:+ pretty code +:+ ". Message: " +:+ message)) s'
  | outcome => outcome
  end.

(* ================================================================= *)
(** * WindowsBluetoothGattCharacteristic *)

Inductive GattCommunicationStatus : Type :=
| Success | Unreachable | ProtocolError | AccessDenied.

#[export] Instance GattCommunicationStatus_eq_dec : EqDecision GattCommunicationStatus.
Proof. solve_decision. Defined.

Inductive GattClientCharacteristicConfigurationDescriptorValue : Type :=
| CccdNone | CccdNotify | CccdIndicate.

#[export] Instance Cccd_eq_dec :
  EqDecision GattClientCharacteristicConfigurationDescriptorValue.
Proof. solve_decision. Defined.

Definition event_token : Type := nat.

(** The platform's [GattCharacteristic]: the [ValueChanged] handlers in the
    order they were added, the next token it hands out, the value the
    peripheral's client characteristic configuration descriptor holds (the
    producer is enabled when it is [CccdNotify]), every descriptor write
    requested so far (oldest first) and every listener invocation made so
    far. *)
Record GattCharacteristic : Type := {
  handlers : list (event_token * Listener);
  next_token : event_token;
  descriptor : GattClientCharacteristicConfigurationDescriptorValue;
  requested : list GattClientCharacteristicConfigurationDescriptorValue;
  delivered : list Event;
}.

Record WindowsBluetoothGattCharacteristic : Type := {
  m_characteristic : GattCharacteristic;
  m_timeout : nat;
  m_subscribers : list event_token;
}.

Module Characteristic.

Definition on_platform (f : GattCharacteristic → GattCharacteristic)
    (c : WindowsBluetoothGattCharacteristic) : WindowsBluetoothGattCharacteristic :=
  {| m_characteristic := f (m_characteristic c);
     m_timeout := m_timeout c;
     m_subscribers := m_subscribers c |}.

Definition set_subscribers (f : list event_token → list event_token)
    (c : WindowsBluetoothGattCharacteristic) : WindowsBluetoothGattCharacteristic :=
  {| m_characteristic := m_characteristic c;
     m_timeout := m_timeout c;
     m_subscribers := f (m_subscribers c) |}.

(** [m_characteristic.ValueChanged(handler)]: the handler is appended and
    a fresh token identifies it. *)
Definition add_handler (f : Listener) (g : GattCharacteristic) : GattCharacteristic :=
  {| handlers := handlers g ++ [(next_token g, f)];
     next_token := S (next_token g);
     descriptor := descriptor g;
     requested := requested g;
     delivered := delivered g |}.

(** [m_characteristic.ValueChanged(token)]: the handler added under
    [token] is dropped; an unknown token changes nothing. *)
Definition remove_handler (token : event_token) (g : GattCharacteristic) : GattCharacteristic :=
  {| handlers := filter (λ h, h.1 ≠ token) (handlers g);
     next_token := next_token g;
     descriptor := descriptor g;
     requested := requested g;
     delivered := delivered g |}.

Definition request (v : GattClientCharacteristicConfigurationDescriptorValue)
    (g : GattCharacteristic) : GattCharacteristic :=
  {| handlers := handlers g;
     next_token := next_token g;
     descriptor := descriptor g;
     requested := requested g ++ [v];
     delivered := delivered g |}.

Definition acknowledge (v : GattClientCharacteristicConfigurationDescriptorValue)
    (g : GattCharacteristic) : GattCharacteristic :=
  {| handlers := handlers g;
     next_token := next_token g;
     descriptor := v;
     requested := requested g;
     delivered := delivered g |}.

(** The peripheral pushes a value: when notifications are enabled every
    [ValueChanged] handler runs, in the order the handlers were added, and
    each passes a copy of the value to its listener. *)
Definition ValueChanged (value : list byte) (g : GattCharacteristic) : GattCharacteristic :=
  {| handlers := handlers g;
     next_token := next_token g;
     descriptor := descriptor g;
     requested := requested g;
     delivered :=
       delivered g ++
       (if decide (descriptor g = CccdNotify)
        then (λ h, Invoke h.2 value) <$> handlers g else []) |}.

(** [WaitWithTimeout(m_characteristic.WriteClientCharacteristicConfigurationDescriptorAsync(v), m_timeout)].
    The request is issued; the descriptor holds [v] from the moment the
    wait reports [Success]. *)
Definition WriteDescriptor (v : GattClientCharacteristicConfigurationDescriptorValue)
    (call : AsyncCall GattCommunicationStatus) :
    M WindowsBluetoothGattCharacteristic GattCommunicationStatus :=
  modify (on_platform (request v));;
  timeout ← gets m_timeout;
  result ← WaitWithTimeout call timeout;
  when (bool_decide (result = Success)) (modify (on_platform (acknowledge v)));;
  mret result.

Definition Subscribe (listener : Listener) (call : AsyncCall GattCommunicationStatus) :
    M WindowsBluetoothGattCharacteristic nat :=
  WINRT_CALL (
    empty ← gets (λ c, bool_decide (m_subscribers c = []));
    when empty (
      result ← WriteDescriptor CccdNotify call;
      when (bool_decide (result ≠ Success))
        (throw (BluetoothException "Failed to write characteristic configuration")));;
    token ← gets (λ c, next_token (m_characteristic c));
    modify (on_platform (add_handler listener));;
    modify (set_subscribers (λ l, l ++ [token]));;
    gets (λ c, length (m_subscribers c) - 1)).

(** [m_subscribers[id]] is defined by the language only for
    [id < m_subscribers.size()]. *)
Definition Unsubscribe (id : nat) (call : AsyncCall GattCommunicationStatus) :
    M WindowsBluetoothGattCharacteristic unit :=
  WINRT_CALL (
    subscriber ← gets (λ c, m_subscribers c !! id);
    match subscriber with
    | None => undefined_behaviour
    | Some token =>
        modify (on_platform (remove_handler token));;
        modify (set_subscribers (delete id));;
        empty ← gets (λ c, bool_decide (m_subscribers c = []));
        when empty (
          result ← WriteDescriptor CccdNone call;
          when (bool_decide (result ≠ Success))
            (throw (BluetoothException "Failed to write characteristic configuration")))
    end).

Definition UnsubscribeAll (call : AsyncCall GattCommunicationStatus) :
    M WindowsBluetoothGattCharacteristic unit :=
  WINRT_CALL (
    subscribers ← gets m_subscribers;
    modify (on_platform (λ g, foldl (λ g token, remove_handler token g) g subscribers));;
    modify (set_subscribers (λ _, []));;
    result ← WriteDescriptor CccdNone call;
    when (bool_decide (result ≠ Success))
      (throw (BluetoothException "Failed to write characteristic configuration"))).

End Characteristic.

(* ================================================================= *)
(** * COMPort *)

(** What one call of [ReadFile] on the port does.  The port is opened with
    read timeouts of 1 ms, so a call returns [TRUE] with no byte when nothing
    arrived in time.  On failure the byte count is zero: [ReadFile] clears
    [*lpNumberOfBytesRead] before it does any work or error checking. *)
Inductive ReadFileResult : Type :=
| ReadSucceeded (received : list byte)
| ReadFailed (last_error : Z).

(** [ReadFile(m_handle, buffer, size, &read, nullptr)]: the success flag, the
    bytes stored at the start of [buffer] and the count stored in [read]. *)
Definition ReadFile (r : ReadFileResult) (size : nat) : bool * list byte * nat :=
  match r with
  | ReadSucceeded received => (true, take size received, length (take size received))
  | ReadFailed _ => (false, [], 0)
  end.

(** The [std::thread m_subscriberThread] together with the point its
    function has reached. *)
Inductive SubscriberThread : Type :=
| NotJoinable   (* default-constructed, or joined *)
| AtLoopHead    (* running; about to lock [m_mutex] for the next iteration *)
| InWait        (* blocked in [m_condition.wait(lock)] *)
| Notified      (* woken by [notify_all]; the [break] is next *)
| Finished.     (* the function has returned; the object is still joinable *)

#[export] Instance SubscriberThread_eq_dec : EqDecision SubscriberThread.
Proof. solve_decision. Defined.

Definition joinable (t : SubscriberThread) : bool :=
  bool_decide (t ≠ NotJoinable).

(** [m_handle] is [Some h] for an open handle and [None] for [nullptr];
    [m_refreshRate] is in milliseconds; [port_events] records what the poll
    thread has done so far (listener invocations and sleeps, oldest
    first). *)
Record COMPort : Type := {
  m_handle : option nat;
  m_subscriberThread : SubscriberThread;
  m_refreshRate : nat;
  m_exiting : bool;
  m_callbacks : list Listener;
  port_events : list Event;
}.

(** [Subscribe], [Unsubscribe], [SetRefreshRate] and [GetRefreshRate] lock
    [m_mutex] in their first statement and [UnsubscribeAll] in its second;
    the poll thread holds it for the whole of an iteration.  So a call takes
    effect between two iterations, and the functions of this module are the
    calls as made by a caller that gets the mutex, together with the steps
    of a poll thread whose listeners return.  The module [Poll] further
    down has the steps of a poll thread whose listeners may throw, and the
    [UnsubscribeAll] whose write of [m_exiting], which is not under the
    mutex, falls inside an iteration.  [Hangs] reports a caller blocked for
    ever in the join of [UnsubscribeAll]; it is blocked with the mutex held,
    so from then on no caller gets the mutex and none of these functions
    applies to the state reported. *)
Module Port.

Definition set_thread (t : SubscriberThread) (p : COMPort) : COMPort :=
  {| m_handle := m_handle p; m_subscriberThread := t;
     m_refreshRate := m_refreshRate p; m_exiting := m_exiting p;
     m_callbacks := m_callbacks p; port_events := port_events p |}.

Definition set_callbacks (f : list Listener → list Listener) (p : COMPort) : COMPort :=
  {| m_handle := m_handle p; m_subscriberThread := m_subscriberThread p;
     m_refreshRate := m_refreshRate p; m_exiting := m_exiting p;
     m_callbacks := f (m_callbacks p); port_events := port_events p |}.

Definition set_exiting (b : bool) (p : COMPort) : COMPort :=
  {| m_handle := m_handle p; m_subscriberThread := m_subscriberThread p;
     m_refreshRate := m_refreshRate p; m_exiting := b;
     m_callbacks := m_callbacks p; port_events := port_events p |}.

Definition set_handle (h : option nat) (p : COMPort) : COMPort :=
  {| m_handle := h; m_subscriberThread := m_subscriberThread p;
     m_refreshRate := m_refreshRate p; m_exiting := m_exiting p;
     m_callbacks := m_callbacks p; port_events := port_events p |}.

Definition set_refresh (rate : nat) (p : COMPort) : COMPort :=
  {| m_handle := m_handle p; m_subscriberThread := m_subscriberThread p;
     m_refreshRate := rate; m_exiting := m_exiting p;
     m_callbacks := m_callbacks p; port_events := port_events p |}.

Definition emit (es : list Event) (p : COMPort) : COMPort :=
  {| m_handle := m_handle p; m_subscriberThread := m_subscriberThread p;
     m_refreshRate := m_refreshRate p; m_exiting := m_exiting p;
     m_callbacks := m_callbacks p; port_events := port_events p ++ es |}.

(** [m_condition.notify_all()]: a thread blocked in [wait] is woken. *)
Definition notify_all (p : COMPort) : COMPort :=
  match m_subscriberThread p with
  | InWait => set_thread Notified p
  | _ => p
  end.

(** [COMPort::Read]: the count [ReadFile] stored; its success flag is
    dropped.  The second component is what the buffer then starts with. *)
Definition Read (r : ReadFileResult) (size : nat) : nat * list byte :=
  let '(_, stored, read) := ReadFile r size in (read, stored).

(** One iteration of the [for (;;)] of the poll thread, run with [m_mutex]
    held from its first statement to its last, when every listener it
    calls returns.  [Poll.loop_iteration] is the iteration for listeners
    that may throw. *)
Definition loop_iteration (r : ReadFileResult) (p : COMPort) : COMPort :=
  if m_exiting p then set_thread Finished p
  else if bool_decide (m_callbacks p = []) then set_thread InWait p
  else
    let '(read, buffer) := Read r 128 in
    if bool_decide (read = 0) then emit [Sleep (m_refreshRate p)] p
    else
      let data := take read buffer in
      emit ((λ callback, Invoke callback data) <$> m_callbacks p) p.

(** The next step of the poll thread.  After the [wait] comes a [break],
    which leaves the loop and ends the thread function.  Only [notify_all]
    ends the wait here; a spurious wake-up would take the same [break]. *)
Definition thread_step (r : ReadFileResult) (p : COMPort) : COMPort :=
  match m_subscriberThread p with
  | AtLoopHead => loop_iteration r p
  | Notified => set_thread Finished p
  | InWait | NotJoinable | Finished => p
  end.

Definition thread_steps (rs : list ReadFileResult) (p : COMPort) : COMPort :=
  foldl (λ p r, thread_step r p) p rs.

Definition Subscribe (listener : Listener) : M COMPort nat :=
  modify (set_callbacks (λ l, l ++ [listener]));;
  modify notify_all;;
  is_joinable ← gets (λ p, joinable (m_subscriberThread p));
  when (negb is_joinable) (modify (set_thread AtLoopHead));;
  gets (λ p, length (m_callbacks p) - 1).

(** [m_callbacks.erase(m_callbacks.begin() + id)] is defined by the
    language only when [begin() + id] designates an element. *)
Definition Unsubscribe (id : nat) : M COMPort unit :=
  size ← gets (λ p, length (m_callbacks p));
  if decide (id < size) then
    modify (set_callbacks (delete id));;
    modify notify_all
  else undefined_behaviour.

(** [UnsubscribeAll] called while the poll thread is between two
    iterations.  [m_exiting] is written before [m_mutex] is requested;
    [racing] are the steps the poll thread starts between that write and
    the moment the caller owns the mutex.  The caller then joins with the
    mutex held, so the join returns only if the thread function has already
    returned.  [Poll.UnsubscribeAll] adds the iteration that is under way
    when the flag is written. *)
Definition UnsubscribeAll (racing : list ReadFileResult) : M COMPort unit :=
  modify (set_exiting true);;
  modify (thread_steps racing);;
  modify (set_callbacks (λ _, []));;
  modify notify_all;;
  thread ← gets m_subscriberThread;
  when (joinable thread) (
    if decide (thread = Finished) then modify (set_thread NotJoinable)
    else blocks_forever).

Definition Close : M COMPort unit :=
  handle ← gets m_handle;
  when (bool_decide (handle ≠ None)) (modify (set_handle None)).

Definition SetRefreshRate (rate : nat) : M COMPort unit :=
  modify (set_refresh rate).

Definition GetRefreshRate : M COMPort nat := gets m_refreshRate.

(** [~COMPort]. *)
Definition destroy (racing : list ReadFileResult) : M COMPort unit :=
  UnsubscribeAll racing;; Close.

(** A port as its constructor leaves it. *)
Definition opened (handle : nat) : COMPort :=
  {| m_handle := Some handle; m_subscriberThread := NotJoinable;
     m_refreshRate := 100; m_exiting := false;
     m_callbacks := []; port_events := [] |}.

End Port.

(* ================================================================= *)
(** * WindowsBluetoothConnection and the teardown of Connect *)

Record WindowsBluetoothConnection : Type := {
  m_services : list nat;
  device_closed : bool;
}.

Module Connection.

(** [failure] is the [hresult_error] that [m_device.Close()] raises, if it
    raises one. *)
Definition Close (failure : option (Z * string)) : M WindowsBluetoothConnection unit :=
  WINRT_CALL (
    modify (λ c, {| m_services := []; device_closed := device_closed c |});;
    match failure with
    | Some (code, message) => throw (hresult_error code message)
    | None => modify (λ c, {| m_services := m_services c; device_closed := true |})
    end).

End Connection.

Inductive TeardownStep : Type :=
| PortUnsubscribeAll
| PortClose
| CharacteristicUnsubscribeAll
| ConnectionClose.

(** The objects [Connect] holds while it bridges, what it has printed, and
    which teardown calls it has made so far (oldest first). *)
Record Bridge : Type := {
  port : COMPort;
  characteristic : WindowsBluetoothGattCharacteristic;
  connection : WindowsBluetoothConnection;
  console : list string;
  attempted : list TeardownStep;
}.

(** What the surroundings decide during one teardown. *)
Record TeardownEnv : Type := {
  racing : list ReadFileResult;
  disable_call : AsyncCall GattCommunicationStatus;
  close_failure : option (Z * string);
}.

Module Main.

Definition set_port (p : COMPort) (b : Bridge) : Bridge :=
  {| port := p; characteristic := characteristic b; connection := connection b;
     console := console b; attempted := attempted b |}.

Definition set_characteristic (c : WindowsBluetoothGattCharacteristic) (b : Bridge) : Bridge :=
  {| port := port b; characteristic := c; connection := connection b;
     console := console b; attempted := attempted b |}.

Definition set_connection (c : WindowsBluetoothConnection) (b : Bridge) : Bridge :=
  {| port := port b; characteristic := characteristic b; connection := c;
     console := console b; attempted := attempted b |}.

Definition print (line : string) : M Bridge unit :=
  modify (λ b, {| port := port b; characteristic := characteristic b;
                  connection := connection b; console := console b ++ [line];
                  attempted := attempted b |}).

(** A teardown call: it is recorded as attempted, then made. *)
Definition call {A} (step : TeardownStep) (m : M Bridge A) : M Bridge A :=
  modify (λ b, {| port := port b; characteristic := characteristic b;
                  connection := connection b; console := console b;
                  attempted := attempted b ++ [step] |});;
  m.

(** [Connect], from the end of the idle loop to its [return 0]. *)
Definition Connect_teardown (env : TeardownEnv) : M Bridge Z :=
  print "Exiting ...";;
  call PortUnsubscribeAll (zoom port set_port (Port.UnsubscribeAll (racing env)));;
  call PortClose (zoom port set_port Port.Close);;
  call CharacteristicUnsubscribeAll
    (zoom characteristic set_characteristic (Characteristic.UnsubscribeAll (disable_call env)));;
  call ConnectionClose (zoom connection set_connection (Connection.Close (close_failure env)));;
  print "Good bye!";;
  mret 0%Z.

(** The [try] of [main] around the dispatched command, with its handlers
    for [BluetoothException] and [COMException]. *)
Definition exception_handlers (body : M Bridge Z) : M Bridge Z := λ b,
  match body b with
  | Throws (BluetoothException message) b' =>
      (print ("Bluetooth error: " +:+ message);; mret 1%Z) b'
  | Throws (COMException message) b' =>
      (print ("COM error: " +:+ message);; mret 1%Z) b'
  | outcome => outcome
  end.

Definition main_connect (env : TeardownEnv) : M Bridge Z :=
  exception_handlers (Connect_teardown env).

End Main.

(* ================================================================= *)
(** * Vocabulary of the properties *)

(** The state a call leaves behind, when it leaves one. *)
Definition state_after {S A} (o : Outcome S A) : option S :=
  match o with
  | Returns _ s | Throws _ s | Hangs s => Some s
  | Undefined => None
  end.


(** The descriptor write of [call] is reported as [Success] to a caller that
    waits [timeout] seconds for it. *)
Definition write_succeeds (call : AsyncCall GattCommunicationStatus) (timeout : nat) : Prop :=
  Status (task call) (wait_exit call timeout) = Completed ∧
  GetResults (task call) = Success.

#[export] Instance write_succeeds_dec call timeout : Decision (write_succeeds call timeout).
Proof. unfold write_succeeds. apply _. Defined.

Definition enabled (c : WindowsBluetoothGattCharacteristic) : Prop :=
  descriptor (m_characteristic c) = CccdNotify.

Definition disabled (c : WindowsBluetoothGattCharacteristic) : Prop :=
  descriptor (m_characteristic c) = CccdNone.

(** The invariant of the listener registry of a characteristic. *)
Definition registry_invariant (c : WindowsBluetoothGattCharacteristic) : Prop :=
  (m_subscribers c ≠ [] → enabled c) ∧ (m_subscribers c = [] → disabled c).

#[export] Instance registry_invariant_dec c : Decision (registry_invariant c).
Proof. unfold registry_invariant, enabled, disabled. apply _. Defined.

Inductive RegistryOp : Type :=
| OpSubscribe (listener : Listener)
| OpUnsubscribe (id : nat)
| OpUnsubscribeAll.

Definition run_op (op : RegistryOp) (call : AsyncCall GattCommunicationStatus)
    (c : WindowsBluetoothGattCharacteristic) :
    Outcome WindowsBluetoothGattCharacteristic unit :=
  match op with
  | OpSubscribe listener => (Characteristic.Subscribe listener call ≫= λ _, mret tt) c
  | OpUnsubscribe id => Characteristic.Unsubscribe id call c
  | OpUnsubscribeAll => Characteristic.UnsubscribeAll call c
  end.

(** What the poll thread has recorded between two states of a port. *)
Definition events_since (before after : COMPort) : list Event :=
  drop (length (port_events before)) (port_events after).

(** The four teardown calls of [Connect], in program order. *)
Definition teardown_steps : list TeardownStep :=
  [PortUnsubscribeAll; PortClose; CharacteristicUnsubscribeAll; ConnectionClose].

(* ================================================================= *)
(** * Sample inputs *)

Definition operation {R} (finish : option nat) (status : AsyncStatus) (result : R)
    (code : Z) (message : string) : IAsyncOperation R :=
  {| finishes_at := finish; terminal := status; GetResults := result;
     ErrorCode := code; ErrorMessage := message |}.

(** An operation observed from clock reading 0 with no early wake-up. *)
Definition observed {R} (op : IAsyncOperation R) : AsyncCall R :=
  {| task := op; now := 0; wakes := [] |}.

(** A descriptor write acknowledged after 50 ms, one refused by the
    peripheral, one that fails in the platform and one never answered. *)
Definition write_ok : AsyncCall GattCommunicationStatus :=
  {| task := operation (Some 50) Completed Success 0 ""; now := 0; wakes := [50] |}.
Definition write_refused : AsyncCall GattCommunicationStatus :=
  {| task := operation (Some 50) Completed Unreachable 0 ""; now := 0; wakes := [50] |}.
Definition write_error : AsyncCall GattCommunicationStatus :=
  {| task := operation (Some 0) Error Success (-2147023673) "The operation was canceled by the user.";
     now := 0; wakes := [] |}.
Definition write_unanswered : AsyncCall GattCommunicationStatus :=
  observed (operation None Started Success 0 "").

Definition fresh_characteristic : WindowsBluetoothGattCharacteristic :=
  {| m_characteristic :=
       {| handlers := []; next_token := 0; descriptor := CccdNone;
          requested := []; delivered := [] |};
     m_timeout := 5;
     m_subscribers := [] |}.

(** The state a call returns with; [default] when it does not return. *)
Definition returned {S A} (o : Outcome S A) (default : S) : S :=
  match o with Returns _ s => s | _ => default end.

Definition chunk_12 : list byte := [x01; x02].
Definition chunk_3 : list byte := [x03].


(** A characteristic with the single listener "A", notifications enabled. *)
Definition one_listener : WindowsBluetoothGattCharacteristic :=
  returned (Characteristic.Subscribe "A" write_ok fresh_characteristic) fresh_characteristic.

(** The characteristic after its only listener was removed by a first,
    acknowledged [UnsubscribeAll]. *)
Definition torn_down_characteristic : WindowsBluetoothGattCharacteristic :=
  returned (Characteristic.UnsubscribeAll write_ok one_listener) one_listener.

(** The port of a running bridge (one listener, poll thread started) and the
    same port after an [UnsubscribeAll] during which the poll thread got the
    mutex first. *)
Definition bridging_port : COMPort :=
  returned (Port.Subscribe "to_characteristic" (Port.opened 1)) (Port.opened 1).

Definition torn_down_port : COMPort :=
  returned (Port.UnsubscribeAll [ReadSucceeded []] bridging_port) bridging_port.

(** The bytes one iteration of the poll loop hands to the listeners. *)
Definition chunk_read (r : ReadFileResult) : list byte :=
  take (Port.Read r 128).1 (Port.Read r 128).2.

(** Ports and characteristics with the listeners "A", "B", "C" (and "D")
    subscribed in that order. *)
Definition port_ABC : COMPort :=
  returned ((Port.Subscribe "A";; Port.Subscribe "B";; Port.Subscribe "C") (Port.opened 1))
           (Port.opened 1).

Definition port_ABCD : COMPort :=
  returned (Port.Subscribe "D" port_ABC) port_ABC.

Definition characteristic_ABC : WindowsBluetoothGattCharacteristic :=
  returned ((Characteristic.Subscribe "A" write_ok;;
             Characteristic.Subscribe "B" write_ok;;
             Characteristic.Subscribe "C" write_ok) fresh_characteristic)
           fresh_characteristic.

Definition characteristic_ABCD : WindowsBluetoothGattCharacteristic :=
  returned (Characteristic.Subscribe "D" write_ok characteristic_ABC) characteristic_ABC.

(** The listeners a port or a characteristic would invoke on its next chunk. *)
Definition port_listeners (p : COMPort) : list Listener := m_callbacks p.

Definition characteristic_listeners (c : WindowsBluetoothGattCharacteristic) : list Listener :=
  snd <$> handlers (m_characteristic c).

(** A port whose poll thread will never read again: the exit flag is set,
    or the thread is not at the head of its loop. *)
Definition never_polls (p : COMPort) : Prop :=
  m_exiting p = true ∨ m_subscriberThread p ≠ AtLoopHead.

(** The port of a running bridge after its only listener unsubscribed and
    the poll thread ran once more. *)
Definition drained_port : COMPort :=
  Port.thread_step (ReadSucceeded chunk_3)
    (returned (Port.Unsubscribe 0 bridging_port) bridging_port).

(** A bridge at the moment the idle loop of [Connect] ends. *)
Definition running_bridge : Bridge :=
  {| port := bridging_port;
     characteristic := one_listener;
     connection := {| m_services := [1; 2]; device_closed := false |};
     console := [];
     attempted := [] |}.


(* ================================================================= *)
(** * Further vocabulary: the registries *)

(** A port whose poll thread is at the head of its loop with listeners to
    serve and no request to exit. *)
Definition polling (p : COMPort) : Prop :=
  m_subscriberThread p = AtLoopHead ∧ m_exiting p = false ∧ m_callbacks p ≠ [].

(** What one iteration records for the read [r] on the polling port [p]. *)
Definition poll_events (p : COMPort) (r : ReadFileResult) : list Event :=
  if decide ((Port.Read r 128).1 = 0) then [Sleep (m_refreshRate p)]
  else (λ callback, Invoke callback (chunk_read r)) <$> m_callbacks p.

(** The chunks passed to [listener], oldest first. *)
Definition chunks_for (listener : Listener) (events : list Event) : list (list byte) :=
  events ≫= λ e, match e with
                 | Invoke callback data => if decide (callback = listener) then [data] else []
                 | Sleep _ => []
                 end.

(** The reads that brought at least one byte. *)
Definition fruitful (rs : list ReadFileResult) : list ReadFileResult :=
  filter (λ r, (Port.Read r 128).1 ≠ 0) rs.

(** [m_subscribers] mirrors the handlers registered with the platform: the
    same tokens in the same order, none twice, all handed out already. *)
Definition tokens_consistent (c : WindowsBluetoothGattCharacteristic) : Prop :=
  (fst <$> handlers (m_characteristic c)) = m_subscribers c ∧
  NoDup (m_subscribers c) ∧
  Forall (λ token, token < next_token (m_characteristic c)) (m_subscribers c).

(* ================================================================= *)
(** * The poll thread when a listener throws, and an UnsubscribeAll that
      starts inside an iteration *)

(** What the surroundings decide during one iteration of the poll loop: what
    [ReadFile] does and, for each listener, whether its call returns
    ([None]) or throws.  A call that does neither is not considered. *)
Record Iteration : Type := {
  read_file : ReadFileResult;
  thrown_by : Listener → option Exception;
}.

(** An iteration in which every listener returns. *)
Definition returning (r : ReadFileResult) : Iteration :=
  {| read_file := r; thrown_by := λ _, None |}.

(** The poll thread after a step.  The thread function has no handler, so an
    exception thrown by a listener leaves it and [std::terminate] ends the
    process. *)
Inductive Polled : Type :=
| Running (p : COMPort)
| Terminated (e : Exception) (p : COMPort).

(** A call of [UnsubscribeAll] as the process sees it: it ends as a call
    does, or the process is terminated while the caller waits for the
    mutex. *)
Inductive Ending : Type :=
| Ended (o : Outcome COMPort unit)
| Aborted (e : Exception) (p : COMPort).

#[export] Instance polling_dec p : Decision (polling p).
Proof. unfold polling. apply _. Defined.

Module Poll.

(** [for (auto &callback : m_callbacks) callback(data);]: the calls made,
    oldest first, and the exception that ended the loop, if one did. *)
Fixpoint invoke (thrown_by : Listener → option Exception) (data : list byte)
    (callbacks : list Listener) : list Event * option Exception :=
  match callbacks with
  | [] => ([], None)
  | callback :: rest =>
      match thrown_by callback with
      | Some e => ([Invoke callback data], Some e)
      | None =>
          let '(events, thrown) := invoke thrown_by data rest in
          (Invoke callback data :: events, thrown)
      end
  end.

(** An iteration from its call of [Read] on; the tests of [m_exiting] and
    of [m_callbacks.empty()] are behind it. *)
Definition serve (it : Iteration) (p : COMPort) : Polled :=
  let '(read, buffer) := Port.Read (read_file it) 128 in
  if bool_decide (read = 0) then Running (Port.emit [Sleep (m_refreshRate p)] p)
  else
    let data := take read buffer in
    match invoke (thrown_by it) data (m_callbacks p) with
    | (events, None) => Running (Port.emit events p)
    | (events, Some e) => Terminated e (Port.emit events p)
    end.

(** One iteration of the [for (;;)] of the poll thread. *)
Definition loop_iteration (it : Iteration) (p : COMPort) : Polled :=
  if m_exiting p then Running (Port.set_thread Finished p)
  else if bool_decide (m_callbacks p = []) then Running (Port.set_thread InWait p)
  else serve it p.

Definition thread_step (it : Iteration) (p : COMPort) : Polled :=
  match m_subscriberThread p with
  | AtLoopHead => loop_iteration it p
  | Notified => Running (Port.set_thread Finished p)
  | InWait | NotJoinable | Finished => Running p
  end.

Fixpoint thread_steps (its : list Iteration) (p : COMPort) : Polled :=
  match its with
  | [] => Running p
  | it :: its' =>
      match thread_step it p with
      | Running p' => thread_steps its' p'
      | Terminated e p' => Terminated e p'
      end
  end.

(** [COMPort::UnsubscribeAll] called at any moment.  [m_exiting = true] is
    written without the mutex, so the poll thread can be inside an
    iteration, past its test of [m_exiting], when the flag is written:
    [in_flight] is that iteration, if there is one.  It runs to its end
    with the mutex held and does not look at the flag again; only then can
    the caller, or the poll thread once more, get the mutex, and the call
    goes on as [Port.UnsubscribeAll] has it. *)
Definition UnsubscribeAll (in_flight : option Iteration) (racing : list ReadFileResult)
    (p : COMPort) : Ending :=
  match in_flight with
  | Some it =>
      if decide (polling p) then
        match serve it (Port.set_exiting true p) with
        | Running p' => Ended (Port.UnsubscribeAll racing p')
        | Terminated e p' => Aborted e p'
        end
      else Ended (Port.UnsubscribeAll racing p)
  | None => Ended (Port.UnsubscribeAll racing p)
  end.

End Poll.

(** The listeners one delivery calls: all of them, or those up to and
    including the first whose call throws. *)
Fixpoint called_listeners (thrown_by : Listener → option Exception)
    (callbacks : list Listener) : list Listener :=
  match callbacks with
  | [] => []
  | callback :: rest =>
      callback :: match thrown_by callback with
                  | Some _ => []
                  | None => called_listeners thrown_by rest
                  end
  end.

(** What the iteration [it] records on the polling port [p]. *)
Definition iteration_events (p : COMPort) (it : Iteration) : list Event :=
  if decide ((Port.Read (read_file it) 128).1 = 0) then [Sleep (m_refreshRate p)]
  else (λ callback, Invoke callback (chunk_read (read_file it)))
         <$> called_listeners (thrown_by it) (m_callbacks p).

(** The port listener of [Connect] forwards each chunk with
    [characteristic->Write(data)], which throws when the write is not
    reported successful: an iteration in which the call of [failing] ends
    that way. *)
Definition write_fails (failing : Listener) (r : ReadFileResult) : Iteration :=
  {| read_file := r;
     thrown_by := λ callback,
       if decide (callback = failing)
       then Some (BluetoothException "Failed to write value") else None |}.

(* ================================================================= *)
(** * Addresses and UUIDs as text *)

(** The contents of a [std::string] or of a [char] buffer up to its
    terminating zero. *)
Abbreviation text := (list ascii).

Definition hex_digit (d : Z) : ascii :=
  nth (Z.to_nat d)
      ["0"; "1"; "2"; "3"; "4"; "5"; "6"; "7"; "8"; "9";
       "A"; "B"; "C"; "D"; "E"; "F"]%char "0"%char.

(** The [n] low-order hexadecimal digits of [value], most significant
    first. *)
Fixpoint hex_digits (n : nat) (value : Z) : text :=
  match n with
  | O => []
  | S n' => hex_digits n' (value / 16) ++ [hex_digit (value `mod` 16)]
  end.

(** The number of hexadecimal digits [value] needs. *)
Definition hex_width (value : Z) : nat :=
  if decide (value ≤ 0)%Z then 1 else Z.to_nat (Z.log2 value / 4 + 1).

(** What [sprintf] writes for ["%0<width>X"] and an unsigned [value]: its
    upper-case hexadecimal digits, padded with zeros to [width]. *)
Definition format_X (width : nat) (value : Z) : text :=
  hex_digits (Nat.max width (hex_width value)) value.

(** [helper.bytes[i]] of the union over a [uint64_t] on a little-endian
    machine. *)
Definition union_byte (value : Z) (i : Z) : Z :=
  Z.land (Z.shiftr value (8 * i)) 255.

Definition BluetoothAddressToString (address : Z) : text :=
  format_X 2 (union_byte address 5) ++ [":"%char] ++
  format_X 2 (union_byte address 4) ++ [":"%char] ++
  format_X 2 (union_byte address 3) ++ [":"%char] ++
  format_X 2 (union_byte address 2) ++ [":"%char] ++
  format_X 2 (union_byte address 1) ++ [":"%char] ++
  format_X 2 (union_byte address 0).

(** [std::stoull(str, nullptr, 16)]: [strtoull] skips white space, takes an
    optional sign and an optional [0x] prefix and converts the hexadecimal
    digits that follow.  No digit at all is [std::invalid_argument]; a value
    that does not fit 64 bits is [std::out_of_range]; a minus sign negates
    modulo 2^64. *)
Inductive Conversion : Type :=
| Converted (value : Z)
| invalid_argument
| out_of_range.

Definition isspace (c : ascii) : bool :=
  let n := N_of_ascii c in
  bool_decide (n = 32 ∨ 9 ≤ n ≤ 13)%N.

Definition hex_value (c : ascii) : option Z :=
  let n := Z.of_N (N_of_ascii c) in
  if decide (48 ≤ n ≤ 57)%Z then Some (n - 48)%Z
  else if decide (65 ≤ n ≤ 70)%Z then Some (n - 55)%Z
  else if decide (97 ≤ n ≤ 102)%Z then Some (n - 87)%Z
  else None.

Fixpoint skip_spaces (s : text) : text :=
  match s with
  | c :: s' => if isspace c then skip_spaces s' else s
  | [] => []
  end.

(** The value of the hexadecimal digits [s] starts with, continuing from
    [acc], and how many digits that were. *)
Fixpoint hex_prefix (acc : Z) (count : nat) (s : text) : Z * nat :=
  match s with
  | c :: s' =>
      match hex_value c with
      | Some d => hex_prefix (16 * acc + d) (S count) s'
      | None => (acc, count)
      end
  | [] => (acc, count)
  end.

Definition skip_sign (s : text) : bool * text :=
  match s with
  | c :: s' =>
      if Ascii.eqb c "-" then (true, s')
      else if Ascii.eqb c "+" then (false, s')
      else (false, s)
  | [] => (false, [])
  end.

Definition skip_0x (s : text) : text :=
  match s with
  | c0 :: c1 :: c2 :: s' =>
      if Ascii.eqb c0 "0" && (Ascii.eqb c1 "x" || Ascii.eqb c1 "X")
         && bool_decide (hex_value c2 ≠ None)
      then c2 :: s' else s
  | _ => s
  end.

Definition stoull_16 (str : text) : Conversion :=
  let '(negative, s) := skip_sign (skip_spaces str) in
  let '(value, count) := hex_prefix 0 0 (skip_0x s) in
  if decide (count = 0) then invalid_argument
  else if decide (2 ^ 64 ≤ value)%Z then out_of_range
  else Converted (if negative then ((2 ^ 64 - value) `mod` 2 ^ 64)%Z else value).

(** [std::remove] followed by [erase]. *)
Definition remove_char (c : ascii) (s : text) : text :=
  filter (λ x, x ≠ c) s.

Definition BluetoothAddressFromString (address : text) : Conversion :=
  stoull_16 (remove_char ":" address).

Record BluetoothUUID : Type := {
  custom : Z;
  part2 : Z;
  part3 : Z;
  part4 : list Z;
}.

#[export] Instance BluetoothUUID_eq_dec : EqDecision BluetoothUUID.
Proof. solve_decision. Defined.

(** The values the field types of the struct admit. *)
Definition uuid_in_range (uuid : BluetoothUUID) : Prop :=
  (0 ≤ custom uuid < 2 ^ 32)%Z ∧ (0 ≤ part2 uuid < 2 ^ 16)%Z ∧
  (0 ≤ part3 uuid < 2 ^ 16)%Z ∧
  length (part4 uuid) = 8 ∧ Forall (λ b, 0 ≤ b < 2 ^ 8)%Z (part4 uuid).

Definition part4_at (uuid : BluetoothUUID) (i : nat) : Z := nth i (part4 uuid) 0%Z.

Definition UUIDToString (uuid : BluetoothUUID) : text :=
  format_X 8 (custom uuid) ++ ["-"%char] ++
  format_X 4 (part2 uuid) ++ ["-"%char] ++
  format_X 4 (part3 uuid) ++ ["-"%char] ++
  format_X 2 (part4_at uuid 0) ++ format_X 2 (part4_at uuid 1) ++ ["-"%char] ++
  format_X 2 (part4_at uuid 2) ++ format_X 2 (part4_at uuid 3) ++
  format_X 2 (part4_at uuid 4) ++ format_X 2 (part4_at uuid 5) ++
  format_X 2 (part4_at uuid 6) ++ format_X 2 (part4_at uuid 7).

Definition UUIDToShortString (uuid : BluetoothUUID) : text :=
  format_X 8 (custom uuid).

(** [GetBluetoothUUID]: the generic UUID with its first field replaced. *)
Definition GetBluetoothUUID (c_genericUUID : BluetoothUUID) (uuid : Z) : BluetoothUUID :=
  {| custom := uuid; part2 := part2 c_genericUUID; part3 := part3 c_genericUUID;
     part4 := part4 c_genericUUID |}.

Definition sample_address : Z := 0x0000C4BE84A1F203.

Definition sample_uuid : BluetoothUUID :=
  {| custom := 0x0000FFE1; part2 := 0; part3 := 0x1000;
     part4 := [0x80; 0x00; 0x00; 0x80; 0x5F; 0x9B; 0x34; 0xFB]%Z |}.

(** The number a sequence of hexadecimal digit values denotes. *)
Definition digits_value (acc : Z) (ds : list Z) : Z :=
  foldl (λ acc d, 16 * acc + d)%Z acc ds.

(** An upper-case hexadecimal digit, as [format_X] writes them. *)
Definition is_hex_digit (c : ascii) : Prop :=
  ∃ d, (0 ≤ d < 16)%Z ∧ c = hex_digit d.

(* ================================================================= *)
(** * Discovery, devices and services *)

(** What an advertisement carries for [CreateDeviceWatcher]. *)
Record Advertisement : Type := {
  AdvertisedAddress : Z;
  LocalName : string;
}.

Record WindowsBluetoothDevice : Type := {
  m_deviceAddress : Z;
  m_deviceName : string;
  m_openConnection : option WindowsBluetoothConnection;
}.

(** The platform's answer to [GetGattServicesAsync]; a service is known by
    the handle the platform gives it. *)
Record GattDeviceServicesResult : Type := {
  services_status : GattCommunicationStatus;
  Services : list nat;
}.

(** What the platform decides during one [OpenConnection]: whether a cached
    connection reports [Connected], and the two asynchronous lookups. *)
Record OpenConnectionEnv : Type := {
  cached_is_open : bool;
  device_call : AsyncCall nat;
  services_call : AsyncCall GattDeviceServicesResult;
}.

Module Discovery.

(** The device the [Received] handler of the watcher builds. *)
Definition received (args : Advertisement) : WindowsBluetoothDevice :=
  {| m_deviceAddress := AdvertisedAddress args;
     m_deviceName := if decide (LocalName args = "") then "(unnamed)" else LocalName args;
     m_openConnection := None |}.

(** The callback [ScanDevices] gives to the watcher. *)
Definition notify (output : list WindowsBluetoothDevice) (device : WindowsBluetoothDevice) :
    list WindowsBluetoothDevice :=
  if bool_decide (Exists (λ current, m_deviceAddress device = m_deviceAddress current) output)
  then output
  else output ++ [device].

Definition scan (adverts : list Advertisement) (output : list WindowsBluetoothDevice) :
    list WindowsBluetoothDevice :=
  foldl (λ output args, notify output (received args)) output adverts.

(** [ScanDevices]: [adverts] are the advertisements received between
    [watcher.Start()] and [watcher.Stop()]; [failure] is the
    [hresult_error] the watcher raises, if it raises one. *)
Definition ScanDevices (failure : option (Z * string)) (adverts : list Advertisement) :
    M (list WindowsBluetoothDevice) unit :=
  WINRT_CALL (
    match failure with
    | Some (code, message) => throw (hresult_error code message)
    | None => modify (scan adverts)
    end).

End Discovery.

Module Device.

Definition constructed (deviceAddress : Z) (deviceName : string) : WindowsBluetoothDevice :=
  {| m_deviceAddress := deviceAddress; m_deviceName := deviceName;
     m_openConnection := None |}.

Definition GetOpenConnection (is_open : bool) (d : WindowsBluetoothDevice) :
    option WindowsBluetoothConnection :=
  match m_openConnection d with
  | None => None
  | Some connection => if is_open then Some connection else None
  end.

Definition reset (d : WindowsBluetoothDevice) : WindowsBluetoothDevice :=
  {| m_deviceAddress := m_deviceAddress d; m_deviceName := m_deviceName d;
     m_openConnection := None |}.

(** The [WINRT_CALL] block of [OpenConnection].  The platform is taken to
    hand out a device object whenever its lookup completes. *)
Definition connect (env : OpenConnectionEnv) (timeout : nat) :
    M WindowsBluetoothDevice WindowsBluetoothConnection :=
  WINRT_CALL (
    device ← WaitWithTimeout (device_call env) timeout;
    gattServices ← WaitWithTimeout (services_call env) timeout;
    if bool_decide (services_status gattServices ≠ Success)
    then throw (BluetoothException "GetGattServicesAsync failed")
    else mret {| m_services := Services gattServices; device_closed := false |}).

Definition OpenConnection (env : OpenConnectionEnv) (timeout : nat) :
    M WindowsBluetoothDevice WindowsBluetoothConnection :=
  cached ← gets m_openConnection;
  match cached with
  | Some connection =>
      if cached_is_open env then mret connection
      else modify reset;; connect env timeout
  | None => connect env timeout
  end.

(** The device after a series of [OpenConnection] calls. *)
Definition after_calls (calls : list (OpenConnectionEnv * nat)) (d : WindowsBluetoothDevice) :
    WindowsBluetoothDevice :=
  foldl (λ d call, default d (state_after (OpenConnection call.1 call.2 d))) d calls.

End Device.

(** A [WindowsBluetoothGattCharacteristic] together with its [m_uuid]. *)
Record CachedCharacteristic : Type := {
  m_uuid : BluetoothUUID;
  object : WindowsBluetoothGattCharacteristic;
}.

(** A characteristic as the platform hands it out. *)
Record PlatformCharacteristic : Type := {
  Uuid : BluetoothUUID;
  platform_object : GattCharacteristic;
}.

Record GattCharacteristicsResult : Type := {
  characteristics_status : GattCommunicationStatus;
  Characteristics : list PlatformCharacteristic;
}.

Record GattReadResult : Type := {
  read_status : GattCommunicationStatus;
  Value : list byte;
}.

Record WindowsBluetoothGattService : Type := {
  m_service : nat;
  service_timeout : nat;
  service_uuid : BluetoothUUID;
  m_characteristics : list CachedCharacteristic;
}.

Module Service.

(** [std::make_unique<WindowsBluetoothGattCharacteristic>(characteristic, m_timeout)]. *)
Definition make_characteristic (timeout : nat) (characteristic : PlatformCharacteristic) :
    CachedCharacteristic :=
  {| m_uuid := Uuid characteristic;
     object := {| m_characteristic := platform_object characteristic;
                  m_timeout := timeout;
                  m_subscribers := [] |} |}.

Definition set_characteristics (cs : list CachedCharacteristic)
    (s : WindowsBluetoothGattService) : WindowsBluetoothGattService :=
  {| m_service := m_service s; service_timeout := service_timeout s;
     service_uuid := service_uuid s; m_characteristics := cs |}.

Definition FetchCharacteristics (call : AsyncCall GattCharacteristicsResult) :
    M WindowsBluetoothGattService unit :=
  WINRT_CALL (
    timeout ← gets service_timeout;
    characteristics ← WaitWithTimeout call timeout;
    when (bool_decide (characteristics_status characteristics ≠ Success))
      (throw (BluetoothException "Failed to fetch characteristics"));;
    modify (set_characteristics
              (make_characteristic timeout <$> Characteristics characteristics))).

(** The loop of [GetCharacteristic]; [None] is the empty [unique_ptr]. *)
Fixpoint lookup_characteristic (uuid : BluetoothUUID) (cs : list CachedCharacteristic) :
    option CachedCharacteristic :=
  match cs with
  | characteristic :: cs' =>
      if decide (m_uuid characteristic = uuid) then Some characteristic
      else lookup_characteristic uuid cs'
  | [] => None
  end.

Definition GetCharacteristic (uuid : BluetoothUUID) (s : WindowsBluetoothGattService) :
    option CachedCharacteristic :=
  lookup_characteristic uuid (m_characteristics s).

End Service.

(** [WindowsBluetoothGattCharacteristic::Read]. *)
Definition Characteristic_Read (call : AsyncCall GattReadResult) :
    M WindowsBluetoothGattCharacteristic (list byte) :=
  WINRT_CALL (
    timeout ← gets m_timeout;
    result ← WaitWithTimeout call timeout;
    if bool_decide (read_status result ≠ Success)
    then throw (BluetoothException "Failed to read value")
    else mret (Value result)).

(** The lookup reported [Success] to a caller waiting [timeout] seconds. *)
Definition fetch_succeeds (call : AsyncCall GattCharacteristicsResult) (timeout : nat) : Prop :=
  Status (task call) (wait_exit call timeout) = Completed ∧
  characteristics_status (GetResults (task call)) = Success.

(** A call that ends in no other way than by returning or by throwing a
    [BluetoothException]. *)
Definition returns_or_BluetoothException {S A} (o : Outcome S A) : Prop :=
  match o with
  | Returns _ _ => True
  | Throws (BluetoothException _) _ => True
  | _ => False
  end.

(** Sample data for discovery and services. *)
Definition sample_adverts : list Advertisement :=
  [ {| AdvertisedAddress := 0xC4BE84A1F203; LocalName := "" |};
    {| AdvertisedAddress := 0x001122334455; LocalName := "thermo" |};
    {| AdvertisedAddress := 0xC4BE84A1F203; LocalName := "HMSoft" |} ].

Definition lookup_ok {R} (result : R) : AsyncCall R :=
  {| task := operation (Some 20) Completed result 0 ""; now := 0; wakes := [20] |}.

Definition sample_open : OpenConnectionEnv :=
  {| cached_is_open := true;
     device_call := lookup_ok 7;
     services_call := lookup_ok {| services_status := Success; Services := [1; 2] |} |}.

Definition vendor_uuid : BluetoothUUID :=
  {| custom := 0x6E400003; part2 := 0xB5A3; part3 := 0xF393;
     part4 := [0xE0; 0xA9; 0xE5; 0x0E; 0x24; 0xDC; 0xCA; 0x9E]%Z |}.

Definition platform_characteristic (uuid : BluetoothUUID) : PlatformCharacteristic :=
  {| Uuid := uuid; platform_object := m_characteristic fresh_characteristic |}.

Definition empty_service : WindowsBluetoothGattService :=
  {| m_service := 1; service_timeout := 5;
     service_uuid := {| custom := 0xFFE0; part2 := part2 sample_uuid;
                        part3 := part3 sample_uuid; part4 := part4 sample_uuid |};
     m_characteristics := [] |}.

(** A service whose cache holds the vendor's characteristic and, behind it,
    two characteristics with the UUID of [sample_uuid]. *)
Definition twin_service : WindowsBluetoothGattService :=
  Service.set_characteristics
    (Service.make_characteristic 5 <$>
       [platform_characteristic vendor_uuid;
        platform_characteristic sample_uuid;
        {| Uuid := sample_uuid; platform_object := m_characteristic one_listener |}])
    empty_service.

Definition fetch_ok : AsyncCall GattCharacteristicsResult :=
  lookup_ok {| characteristics_status := Success;
               Characteristics := [platform_characteristic vendor_uuid;
                                   platform_characteristic sample_uuid] |}.

(* ================================================================= *)
(** * Opening a serial port *)

Inductive Parity : Type :=
| PARITY_BITS_NONE | PARITY_BITS_ODD | PARITY_BITS_EVEN | PARITY_BITS_MARK | PARITY_BITS_SPACE.

Inductive StopBits : Type :=
| STOP_BITS_ONE | STOP_BITS_ONE_AND_HALF | STOP_BITS_TWO.

Inductive DcbStopBits : Type := ONESTOPBIT | ONE5STOPBITS | TWOSTOPBITS.

Inductive DcbParity : Type := NOPARITY | ODDPARITY | EVENPARITY | MARKPARITY | SPACEPARITY.

(** The fields of a [DCB] the constructor writes; [dcb_rest] stands for all
    the others. *)
Record DCB : Type := {
  BaudRate : Z;
  ByteSize : Z;
  DcbStopBitsField : DcbStopBits;
  DcbParityField : DcbParity;
  dcb_rest : nat;
}.

Record COMMTIMEOUTS : Type := {
  ReadIntervalTimeout : Z;
  ReadTotalTimeoutMultiplier : Z;
  ReadTotalTimeoutConstant : Z;
  WriteTotalTimeoutMultiplier : Z;
  WriteTotalTimeoutConstant : Z;
}.

(** What the operating system holds: the handles that are open with the
    name each was opened under, and the settings last applied. *)
Record CommSystem : Type := {
  open_handles : list (nat * string);
  comm_state : option DCB;
  comm_timeouts : option COMMTIMEOUTS;
}.

(** What the operating system answers during one construction: the handle
    [CreateFile] returns ([None] for [INVALID_HANDLE_VALUE]), the state
    [GetCommState] fills in ([None] when it fails), whether [SetCommState]
    and [SetCommTimeouts] succeed, and what [GetLastError] reports. *)
Record OpenPortEnv : Type := {
  CreateFile_handle : option nat;
  GetCommState_dcb : option DCB;
  SetCommState_ok : bool;
  SetCommTimeouts_ok : bool;
  GetLastError : Z;
}.

Module PortOpen.

Definition stop_bits (stopBits : StopBits) : DcbStopBits :=
  match stopBits with
  | STOP_BITS_ONE => ONESTOPBIT
  | STOP_BITS_ONE_AND_HALF => ONE5STOPBITS
  | _ => TWOSTOPBITS
  end.

Definition parity_bits (parity : Parity) : DcbParity :=
  match parity with
  | PARITY_BITS_NONE => NOPARITY
  | PARITY_BITS_ODD => ODDPARITY
  | PARITY_BITS_EVEN => EVENPARITY
  | PARITY_BITS_MARK => MARKPARITY
  | PARITY_BITS_SPACE => SPACEPARITY
  end.

(** The [DCB] handed to [SetCommState]; [ByteSize] is a [BYTE]. *)
Definition configure (dcb : DCB) (baud data : Z) (stopBits : StopBits) (parity : Parity) : DCB :=
  {| BaudRate := baud;
     ByteSize := data `mod` 256;
     DcbStopBitsField := stop_bits stopBits;
     DcbParityField := parity_bits parity;
     dcb_rest := dcb_rest dcb |}.

Definition timeouts : COMMTIMEOUTS :=
  {| ReadIntervalTimeout := 1; ReadTotalTimeoutMultiplier := 1;
     ReadTotalTimeoutConstant := 1; WriteTotalTimeoutMultiplier := 1;
     WriteTotalTimeoutConstant := 1 |}.

Definition port_name (number : nat) : string := "COM" +:+ pretty number.

Definition opening (handle : nat) (name : string) (os : CommSystem) : CommSystem :=
  {| open_handles := open_handles os ++ [(handle, name)];
     comm_state := comm_state os; comm_timeouts := comm_timeouts os |}.

Definition applying_state (dcb : DCB) (os : CommSystem) : CommSystem :=
  {| open_handles := open_handles os; comm_state := Some dcb;
     comm_timeouts := comm_timeouts os |}.

Definition applying_timeouts (t : COMMTIMEOUTS) (os : CommSystem) : CommSystem :=
  {| open_handles := open_handles os; comm_state := comm_state os;
     comm_timeouts := Some t |}.

(** [COMPort::COMPort].  A constructor that throws leaves no object behind,
    so [~COMPort] does not run for it. *)
Definition COMPort_new (env : OpenPortEnv) (number : nat) (baud data : Z)
    (stopBits : StopBits) (parity : Parity) : M CommSystem COMPort :=
  match CreateFile_handle env with
  | None => throw (COMException ("Failed to open port " +:+ port_name number))
  | Some handle =>
      modify (opening handle (port_name number));;
      match GetCommState_dcb env with
      | None => throw (COMException ("GetCommState failed with error "
                                     +:+ pretty (GetLastError env)))
      | Some dcb =>
          if negb (SetCommState_ok env)
          then throw (COMException ("SetCommState failed with error "
                                    +:+ pretty (GetLastError env)))
          else
            modify (applying_state (configure dcb baud data stopBits parity));;
            if negb (SetCommTimeouts_ok env)
            then throw (COMException ("SetCommTimeouts failed with error "
                                      +:+ pretty (GetLastError env)))
            else
              modify (applying_timeouts timeouts);;
              mret (Port.opened handle)
      end
  end.

Definition all_succeed (env : OpenPortEnv) : Prop :=
  is_Some (CreateFile_handle env) ∧ is_Some (GetCommState_dcb env) ∧
  SetCommState_ok env = true ∧ SetCommTimeouts_ok env = true.

End PortOpen.

Definition no_ports : CommSystem :=
  {| open_handles := []; comm_state := None; comm_timeouts := None |}.

Definition busy_port : OpenPortEnv :=
  {| CreateFile_handle := Some 44; GetCommState_dcb := None;
     SetCommState_ok := true; SetCommTimeouts_ok := true; GetLastError := 5 |}.

(** A teardown in which every step succeeds. *)
Definition clean_env : TeardownEnv :=
  {| racing := [ReadSucceeded []]; disable_call := write_ok; close_failure := None |}.

(* ================================================================= *)
(** * FindDevice *)

(** What happens during one [FindDevice]: the advertisements the watcher
    receives with the clock reading at which each arrives (in order of
    arrival), the clock reading when the wait starts, the time spent in each
    [wait_until] that returns before the deadline, and the [hresult_error]
    the watcher raises, if it raises one. *)
Record FindEnv : Type := {
  find_failure : option (Z * string);
  arrivals : list (nat * Advertisement);
  find_now : nat;
  find_wakes : list nat;
}.

Module Find.

(** [result] at clock reading [t]: the watcher's callback overwrites it with
    every advertisement from [address]. *)
Definition result_at (address : Z) (env : FindEnv) (t : nat) : option WindowsBluetoothDevice :=
  Discovery.received <$>
    last (filter (λ a, a.1 ≤ t ∧ AdvertisedAddress a.2 = address) (arrivals env)).*2.

(** The [while] loop; the result is the clock reading at which it is left. *)
Fixpoint wait (address : Z) (env : FindEnv) (deadline : nat) (wakes : list nat)
    (now : nat) : nat :=
  if decide (now < deadline) then
    match wakes with
    | [] => deadline
    | d :: wakes' =>
        let woken := Nat.min deadline (now + d) in
        if bool_decide (is_Some (result_at address env woken)) then woken
        else wait address env deadline wakes' woken
    end
  else now.

Definition deadline (env : FindEnv) (timelimit : nat) : nat :=
  find_now env + seconds timelimit.

Definition left_at (address : Z) (env : FindEnv) (timelimit : nat) : nat :=
  wait address env (deadline env timelimit) (find_wakes env) (find_now env).

Definition FindDevice {S} (address : Z) (timelimit : nat) (env : FindEnv) :
    M S (option WindowsBluetoothDevice) :=
  WINRT_CALL (
    match find_failure env with
    | Some (code, message) => throw (hresult_error code message)
    | None => mret (result_at address env (left_at address env timelimit))
    end).

End Find.

Definition sample_find : FindEnv :=
  {| find_failure := None;
     arrivals := [(300, {| AdvertisedAddress := 0x001122334455; LocalName := "thermo" |});
                  (700, {| AdvertisedAddress := 0xC4BE84A1F203; LocalName := "HMSoft" |})];
     find_now := 0;
     find_wakes := [700] |}.

(* ================================================================= *)
(** * The arguments of the connect command *)

(** [std::stoi(str, nullptr, base)] for base 10 or 16: [strtol] skips white
    space, takes an optional sign (and, in base 16, an optional [0x]) and
    converts the digits that follow; no digit is [std::invalid_argument], a
    value outside the range of a 32-bit [long] is [std::out_of_range]. *)
Definition digit_value (base : Z) (c : ascii) : option Z :=
  match hex_value c with
  | Some d => if decide (d < base)%Z then Some d else None
  | None => None
  end.

Fixpoint digits_prefix (base acc : Z) (count : nat) (s : text) : Z * nat :=
  match s with
  | c :: s' =>
      match digit_value base c with
      | Some d => digits_prefix base (base * acc + d) (S count) s'
      | None => (acc, count)
      end
  | [] => (acc, count)
  end.

Definition stoi (base : Z) (str : text) : Conversion :=
  let '(negative, s) := skip_sign (skip_spaces str) in
  let '(value, count) :=
    digits_prefix base 0 0 (if decide (base = 16%Z) then skip_0x s else s) in
  let signed := if negative then (- value)%Z else value in
  if decide (count = 0) then invalid_argument
  else if decide (signed < - 2 ^ 31 ∨ 2 ^ 31 ≤ signed)%Z then out_of_range
  else Converted signed.

Definition StringToInt (str : text) : Conversion := stoi 10 str.

(** The result of a converter that yields something other than a number. *)
Inductive Parsed (A : Type) : Type :=
| Value_of (a : A)
| Rejected.
Arguments Value_of {A} a.
Arguments Rejected {A}.

Definition StopBitsFromString (str : text) : Parsed StopBits :=
  if decide (str = String.list_ascii_of_string "1") then Value_of STOP_BITS_ONE
  else if decide (str = String.list_ascii_of_string "1.5") then Value_of STOP_BITS_ONE_AND_HALF
  else if decide (str = String.list_ascii_of_string "2") then Value_of STOP_BITS_TWO
  else Rejected.

Definition ParityFromString (str : text) : Parsed Parity :=
  if decide (str = String.list_ascii_of_string "none") then Value_of PARITY_BITS_NONE
  else if decide (str = String.list_ascii_of_string "odd") then Value_of PARITY_BITS_ODD
  else if decide (str = String.list_ascii_of_string "even") then Value_of PARITY_BITS_EVEN
  else if decide (str = String.list_ascii_of_string "mark") then Value_of PARITY_BITS_MARK
  else if decide (str = String.list_ascii_of_string "space") then Value_of PARITY_BITS_SPACE
  else Rejected.

(** [ParamHelper]: [argc] and [argv] as [main] receives them. *)
Record ParamHelper : Type := {
  argv : list text;
}.

Definition argc (args : ParamHelper) : nat := length (argv args).

Definition GetStringOrDefault (args : ParamHelper) (index : nat) (def : string) : text :=
  if decide (argc args ≤ index) then String.list_ascii_of_string def
  else nth index (argv args) [].

(** An [int] converted to [unsigned int], or cast to an enumeration over
    [uint32_t]: the value modulo 2^32. *)
Definition to_uint32 (value : Z) : Z := value `mod` 2 ^ 32.

(** The values [Connect] receives, each in the type of its parameter: a
    [uint64_t], two enumerations over [uint32_t], four [unsigned int], the
    two line settings and a count of milliseconds (signed). *)
Record ConnectArguments : Type := {
  connect_addr : Z;
  connect_serviceId : Z;
  connect_characteristicId : Z;
  connect_portNumber : Z;
  connect_timeout : Z;
  connect_baud : Z;
  connect_data : Z;
  connect_stopBits : StopBits;
  connect_parity : Parity;
  connect_refresh : Z;
}.

Definition converted (c : Conversion) : option Z :=
  match c with Converted value => Some value | _ => None end.

Definition parsed {A} (p : Parsed A) : option A :=
  match p with Value_of a => Some a | Rejected => None end.

(** The argument list of the call of [Connect] in [main].  The order in
    which the ten conversions run is not fixed by the language; [Connect] is
    entered only if none of them throws, which is what [Some] stands for.
    The two ids are [static_cast] from the [int] that [std::stoi] returns,
    and the [int] results for the port number, the timeout, the baud rate
    and the data bits are converted to the [unsigned int] parameters. *)
Definition connect_arguments (args : ParamHelper) : option ConnectArguments :=
  addr ← converted (BluetoothAddressFromString (GetStringOrDefault args 2 ""));
  serviceId ← to_uint32 <$> converted (stoi 16 (GetStringOrDefault args 3 ""));
  characteristicId ← to_uint32 <$> converted (stoi 16 (GetStringOrDefault args 4 ""));
  portNumber ← to_uint32 <$> converted (StringToInt (GetStringOrDefault args 5 ""));
  timeout ← to_uint32 <$> converted (StringToInt (GetStringOrDefault args 6 "5"));
  baud ← to_uint32 <$> converted (StringToInt (GetStringOrDefault args 7 "9600"));
  data ← to_uint32 <$> converted (StringToInt (GetStringOrDefault args 8 "8"));
  stopBits ← parsed (StopBitsFromString (GetStringOrDefault args 9 "1"));
  parity ← parsed (ParityFromString (GetStringOrDefault args 10 "none"));
  refresh ← converted (StringToInt (GetStringOrDefault args 11 "100"));
  Some {| connect_addr := addr; connect_serviceId := serviceId;
          connect_characteristicId := characteristicId; connect_portNumber := portNumber;
          connect_timeout := timeout; connect_baud := baud; connect_data := data;
          connect_stopBits := stopBits; connect_parity := parity;
          connect_refresh := refresh |}.

Definition connect_command : ParamHelper :=
  {| argv := String.list_ascii_of_string <$>
       ["BLE_Serial"; "connect"; "C4:BE:84:A1:F2:03"; "FFE0"; "FFE1"; "3"] |}.

(** The same command with a negative port number and a negative timeout. *)
Definition connect_negative : ParamHelper :=
  {| argv := String.list_ascii_of_string <$>
       ["BLE_Serial"; "connect"; "C4:BE:84:A1:F2:03"; "FFE0"; "FFE1"; "-3"; "-1"] |}.
(* ================================================================= *)
(** * The timeout-bounded wait *)

Section Wait.
Context {R : Type}.
Implicit Types (op : IAsyncOperation R) (call : AsyncCall R).










End Wait.




(** The three cases the specification lists for the adapter. *)
Example wait_completes_in_time :
  WINRT_CALL (WaitWithTimeout
    {| task := operation (Some 50) Completed chunk_12 0 ""; now := 0; wakes := [50] |} 1) tt
  = Returns chunk_12 tt.
Proof. reflexivity. Qed.

Example wait_never_completes :
  let call := observed (operation None Started chunk_12 0 "") in
  WINRT_CALL (WaitWithTimeout call 1) tt
    = Throws (BluetoothException "Operation timed out") tt
  ∧ wait_exit call 1 = 1000.
Proof. split; reflexivity. Qed.

Example wait_fails_at_once :
  WINRT_CALL (WaitWithTimeout
    (observed (operation (Some 0) Error chunk_12 (-2147483629) "The device is unreachable.")) 1) tt
  = Throws (BluetoothException
      "Bluetooth error. Code: -2147483629. Message: The device is unreachable.") tt.
Proof. vm_compute. reflexivity. Qed.

(* ================================================================= *)
(** * The registry of a characteristic *)

(** Unfold the monadic plumbing of a modelled function body. *)
Ltac run :=
  repeat (unfold mbind, mret, M_bind, M_ret, WINRT_CALL, Characteristic.WriteDescriptor,
            WaitWithTimeout, gets, modify, when, throw, undefined_behaviour,
            blocks_forever, zoom; simpl).

Lemma not_write_succeeds call timeout :
  ¬ write_succeeds call timeout →
  Status (task call) (wait_exit call timeout) ≠ Completed ∨
  GetResults (task call) ≠ Success.
Proof.
  unfold write_succeeds. intros H.
  destruct (decide (Status (task call) (wait_exit call timeout) = Completed)); [|by left].
  right. intros ?. by apply H.
Qed.

(** C5.  On an empty registry, when the descriptor write that enables
    notifications is not reported as successful, [Subscribe] throws and
    registers nothing: the subscriber list is still empty, no [ValueChanged]
    handler was added, no token was consumed and the descriptor is as
    before.  The only trace of the call is the write request itself. *)
Theorem Subscribe_enable_failure_registers_nothing
    (listener : Listener) (call : AsyncCall GattCommunicationStatus)
    (c : WindowsBluetoothGattCharacteristic) :
  m_subscribers c = [] →
  ¬ write_succeeds call (m_timeout c) →
  ∃ e c',
    Characteristic.Subscribe listener call c = Throws e c' ∧
    c' = Characteristic.on_platform (Characteristic.request CccdNotify) c ∧
    m_subscribers c' = [] ∧
    handlers (m_characteristic c') = handlers (m_characteristic c) ∧
    next_token (m_characteristic c') = next_token (m_characteristic c) ∧
    descriptor (m_characteristic c') = descriptor (m_characteristic c) ∧
    delivered (m_characteristic c') = delivered (m_characteristic c).
Proof.
  intros Hempty Hfail. apply not_write_succeeds in Hfail.
  destruct c as [g timeout subs]. simpl in *. subst subs.
  unfold Characteristic.Subscribe. run.
  destruct (Status (task call) (wait_exit call timeout)) eqn:Hst; run;
    try (eexists _, _; split_and!; reflexivity).
  destruct (GetResults (task call)) eqn:Hres; run;
    try (eexists _, _; split_and!; reflexivity).
  destruct Hfail; congruence.
Qed.

Lemma Subscribe_enable_failure_witness :
  m_subscribers fresh_characteristic = [] ∧
  ¬ write_succeeds write_unanswered (m_timeout fresh_characteristic) ∧
  ∃ e c',
    Characteristic.Subscribe "A" write_unanswered fresh_characteristic = Throws e c' ∧
    c' = Characteristic.on_platform (Characteristic.request CccdNotify) fresh_characteristic ∧
    m_subscribers c' = [] ∧
    handlers (m_characteristic c') = handlers (m_characteristic fresh_characteristic) ∧
    next_token (m_characteristic c') = next_token (m_characteristic fresh_characteristic) ∧
    descriptor (m_characteristic c') = descriptor (m_characteristic fresh_characteristic) ∧
    delivered (m_characteristic c') = delivered (m_characteristic fresh_characteristic).
Proof.
  assert (Hfail : ¬ write_succeeds write_unanswered (m_timeout fresh_characteristic)).
  { vm_compute. intros [H _]. discriminate H. }
  split; [reflexivity | split; [exact Hfail |]].
  exact (Subscribe_enable_failure_registers_nothing
           "A" write_unanswered fresh_characteristic eq_refl Hfail).
Defined.

(** The claim as the specification words it, refuted: an [Unsubscribe] that
    removes the last listener and whose disabling write is never answered
    leaves an empty registry with notifications still enabled. *)
Lemma failed_disable_breaks_invariant :
  ¬ (∀ op call c c',
       registry_invariant c → state_after (run_op op call c) = Some c' →
       registry_invariant c').
Proof.
  intros H.
  specialize (H (OpUnsubscribe 0) write_unanswered one_listener _
                ltac:(vm_compute; split; [done | intros; done]) eq_refl).
  destruct H as [_ H]. specialize (H eq_refl). vm_compute in H. discriminate H.
Qed.

(** C6, as the code has it.  A [Subscribe], [Unsubscribe] or
    [UnsubscribeAll] that returns preserves the invariant: listeners present
    implies notifications enabled, no listener implies notifications
    disabled.  A call throws only when its descriptor write is not reported
    as successful; the descriptor is then as it was before the call, so
    "listeners present implies enabled" still holds, while a call that had
    already emptied the registry leaves the producer as it found it.  The
    only call without a defined outcome is an [Unsubscribe] whose id is not
    below the listener count. *)
Theorem registry_invariant_after_operation
    (op : RegistryOp) (call : AsyncCall GattCommunicationStatus)
    (c : WindowsBluetoothGattCharacteristic) :
  registry_invariant c →
  match run_op op call c with
  | Returns _ c' => registry_invariant c'
  | Throws _ c' =>
      ¬ write_succeeds call (m_timeout c) ∧
      (m_subscribers c' ≠ [] → enabled c') ∧
      descriptor (m_characteristic c') = descriptor (m_characteristic c)
  | Hangs _ => False
  | Undefined => ∃ id, op = OpUnsubscribe id ∧ length (m_subscribers c) ≤ id
  end.
Proof.
  intros [Hne He].
  destruct c as [g timeout subs].
  unfold registry_invariant, enabled, disabled, write_succeeds in *. simpl in *.
  destruct op as [listener|id|]; unfold run_op.
  - unfold Characteristic.Subscribe. run.
    destruct subs as [|tok subs]; run.
    + destruct (Status (task call) (wait_exit call timeout)) eqn:Hst; run;
        try (split_and!; [intros [? ?]; congruence | done | done]).
      destruct (GetResults (task call)) eqn:Hres; run;
        try (split_and!; [intros [? ?]; congruence | done | done]).
      split; done.
    + split; [intros _; by apply Hne | done].
  - unfold Characteristic.Unsubscribe. run.
    destruct (subs !! id) as [tok|] eqn:Hid; run.
    2:{ exists id. split; [done | by apply lookup_ge_None]. }
    destruct (delete id subs) as [|tok' subs'] eqn:Hdel; run.
    + destruct (Status (task call) (wait_exit call timeout)) eqn:Hst; run;
        try (split_and!; [intros [? ?]; congruence | done | done]).
      destruct (GetResults (task call)) eqn:Hres; run;
        try (split_and!; [intros [? ?]; congruence | done | done]).
      rewrite Hdel. split; done.
    + rewrite ?Hdel. split; [|done]. intros _. apply Hne. intros ->. by rewrite lookup_nil in Hid.
  - unfold Characteristic.UnsubscribeAll. run.
    destruct (Status (task call) (wait_exit call timeout)) eqn:Hst; run;
      try (split_and!; [intros [? ?]; congruence | done | ]).
    all: try (clear; induction subs as [|tok subs IH] using rev_ind;
              [done | by rewrite foldl_app]).
    destruct (GetResults (task call)) eqn:Hres; run;
      try (split_and!; [intros [? ?]; congruence | done | ]).
    all: try (clear; induction subs as [|tok subs IH] using rev_ind;
              [done | by rewrite foldl_app]).
    split; done.
Qed.

Lemma registry_invariant_witness :
  registry_invariant one_listener ∧
  match run_op (OpUnsubscribe 0) write_ok one_listener with
  | Returns _ c' => registry_invariant c'
  | Throws _ c' =>
      ¬ write_succeeds write_ok (m_timeout one_listener) ∧
      (m_subscribers c' ≠ [] → enabled c') ∧
      descriptor (m_characteristic c') = descriptor (m_characteristic one_listener)
  | Hangs _ => False
  | Undefined => ∃ id, OpUnsubscribe 0 = OpUnsubscribe id ∧ length (m_subscribers one_listener) ≤ id
  end.
Proof.
  assert (Hinv : registry_invariant one_listener).
  { vm_compute. split; [reflexivity | intros H; discriminate H]. }
  split; [exact Hinv |].
  exact (registry_invariant_after_operation (OpUnsubscribe 0) write_ok one_listener Hinv).
Defined.

Lemma remove_handlers_descriptor g (tokens : list event_token) :
  descriptor (foldl (λ g token, Characteristic.remove_handler token g) g tokens) = descriptor g
  ∧ requested (foldl (λ g token, Characteristic.remove_handler token g) g tokens) = requested g.
Proof.
  induction tokens as [|token tokens IH] using rev_ind; [done|].
  rewrite foldl_app. simpl. done.
Qed.

(** What a returning [UnsubscribeAll] leaves behind. *)
Lemma Characteristic_UnsubscribeAll_returns call c c1 :
  Characteristic.UnsubscribeAll call c = Returns tt c1 →
  write_succeeds call (m_timeout c) ∧ m_subscribers c1 = [] ∧ disabled c1 ∧
  m_timeout c1 = m_timeout c ∧
  requested (m_characteristic c1) = requested (m_characteristic c) ++ [CccdNone].
Proof.
  destruct c as [g timeout subs].
  unfold Characteristic.UnsubscribeAll, write_succeeds, disabled. run.
  destruct (Status (task call) (wait_exit call timeout)) eqn:Hst; run; try done.
  destruct (GetResults (task call)) eqn:Hres; run; try done.
  intros [= <-]. simpl. split_and!; try done.
  by rewrite (proj2 (remove_handlers_descriptor g subs)).
Qed.

Lemma Characteristic_UnsubscribeAll_again call c :
  m_subscribers c = [] → disabled c →
  let c2 := Characteristic.on_platform (Characteristic.request CccdNone) c in
  (write_succeeds call (m_timeout c) → Characteristic.UnsubscribeAll call c = Returns tt c2) ∧
  (¬ write_succeeds call (m_timeout c) → ∃ e, Characteristic.UnsubscribeAll call c = Throws e c2).
Proof.
  destruct c as [[hs next d reqs evs] timeout subs].
  unfold disabled, write_succeeds, Characteristic.UnsubscribeAll. simpl.
  intros -> ->. run. split.
  - intros [-> ->]. reflexivity.
  - intros Hfail.
    destruct (Status (task call) (wait_exit call timeout)) eqn:Hst; run; eauto.
    destruct (GetResults (task call)) eqn:Hres; run; eauto.
    destruct Hfail. done.
Qed.

(* ================================================================= *)
(** * The registry and the poll thread of a serial port *)

Lemma thread_steps_parked rs p :
  m_subscriberThread p = NotJoinable ∨ m_subscriberThread p = InWait ∨
  m_subscriberThread p = Finished →
  Port.thread_steps rs p = p.
Proof.
  intros Hpark. unfold Port.thread_steps.
  induction rs as [|r rs IH]; [done|]. simpl.
  replace (Port.thread_step r p) with p; [done|].
  unfold Port.thread_step.
  destruct Hpark as [-> | [-> | ->]]; done.
Qed.

(** What a returning [UnsubscribeAll] leaves behind. *)
Lemma Port_UnsubscribeAll_returns racing p p1 :
  Port.UnsubscribeAll racing p = Returns tt p1 →
  m_exiting p1 = true ∧ m_callbacks p1 = [] ∧ m_subscriberThread p1 = NotJoinable.
Proof.
  unfold Port.UnsubscribeAll. run.
  set (q := Port.thread_steps racing (Port.set_exiting true p)).
  assert (Hex : m_exiting q = true).
  { subst q. generalize (Port.set_exiting true p), (eq_refl : m_exiting (Port.set_exiting true p) = true).
    unfold Port.thread_steps. induction racing as [|r rs IH]; intros p0 Hp0; [done|].
    simpl. apply IH. unfold Port.thread_step, Port.loop_iteration.
    rewrite Hp0. by destruct (m_subscriberThread p0). }
  unfold Port.notify_all. simpl.
  destruct (m_subscriberThread q) eqn:Hth; simpl; rewrite ?Hth; simpl;
    try done; intros [= <-]; simpl; done.
Qed.

Lemma Port_UnsubscribeAll_again racing p :
  m_exiting p = true → m_callbacks p = [] → m_subscriberThread p = NotJoinable →
  Port.UnsubscribeAll racing p = Returns tt p.
Proof.
  destruct p as [h th rate ex cbs evs]. simpl. intros -> -> ->.
  unfold Port.UnsubscribeAll. run.
  rewrite thread_steps_parked; [|by left].
  reflexivity.
Qed.

(** The claim as the specification words it, refuted on the characteristic:
    the second [UnsubscribeAll] issues one more descriptor write, which the
    record of requested writes shows. *)
Lemma second_UnsubscribeAll_writes_again :
  ¬ (∀ call1 call2 c c1,
       Characteristic.UnsubscribeAll call1 c = Returns tt c1 →
       Characteristic.UnsubscribeAll call2 c1 = Returns tt c1).
Proof.
  intros H.
  specialize (H write_ok write_ok one_listener torn_down_characteristic eq_refl).
  vm_compute in H. discriminate H.
Qed.

(** C4, as the code has it.  On a serial port a second [UnsubscribeAll]
    after one that returned does nothing at all: it returns and the port is
    exactly as the first call left it.  On a characteristic the first call
    leaves no subscriber and the producer disabled; a second call keeps the
    subscribers, handlers and descriptor as they are but requests one more
    disabling descriptor write, and it returns when that write is reported
    successful and throws when it is not. *)
Theorem UnsubscribeAll_twice
    (racing1 racing2 : list ReadFileResult) (p p1 : COMPort)
    (call1 call2 : AsyncCall GattCommunicationStatus)
    (c c1 : WindowsBluetoothGattCharacteristic) :
  Port.UnsubscribeAll racing1 p = Returns tt p1 →
  Characteristic.UnsubscribeAll call1 c = Returns tt c1 →
  Port.UnsubscribeAll racing2 p1 = Returns tt p1 ∧
  m_subscribers c1 = [] ∧ disabled c1 ∧
  let c2 := Characteristic.on_platform (Characteristic.request CccdNone) c1 in
  m_subscribers c2 = [] ∧ disabled c2 ∧
  handlers (m_characteristic c2) = handlers (m_characteristic c1) ∧
  requested (m_characteristic c2) = requested (m_characteristic c1) ++ [CccdNone] ∧
  (write_succeeds call2 (m_timeout c1) →
     Characteristic.UnsubscribeAll call2 c1 = Returns tt c2) ∧
  (¬ write_succeeds call2 (m_timeout c1) →
     ∃ e, Characteristic.UnsubscribeAll call2 c1 = Throws e c2).
Proof.
  intros Hport Hchar.
  apply Port_UnsubscribeAll_returns in Hport as (Hex & Hcbs & Hth).
  apply Characteristic_UnsubscribeAll_returns in Hchar as (_ & Hsubs & Hdis & _ & _).
  split; [by apply Port_UnsubscribeAll_again|].
  split; [done|]. split; [done|]. intros c2.
  destruct (Characteristic_UnsubscribeAll_again call2 c1 Hsubs Hdis) as [Hok Hfail].
  split_and!; done.
Qed.

Lemma UnsubscribeAll_twice_witness :
  Port.UnsubscribeAll [ReadSucceeded []] bridging_port = Returns tt torn_down_port ∧
  Characteristic.UnsubscribeAll write_ok one_listener = Returns tt torn_down_characteristic ∧
  Port.UnsubscribeAll [] torn_down_port = Returns tt torn_down_port ∧
  m_subscribers torn_down_characteristic = [] ∧ disabled torn_down_characteristic ∧
  let c2 := Characteristic.on_platform (Characteristic.request CccdNone)
              torn_down_characteristic in
  m_subscribers c2 = [] ∧ disabled c2 ∧
  handlers (m_characteristic c2) = handlers (m_characteristic torn_down_characteristic) ∧
  requested (m_characteristic c2)
    = requested (m_characteristic torn_down_characteristic) ++ [CccdNone] ∧
  (write_succeeds write_refused (m_timeout torn_down_characteristic) →
     Characteristic.UnsubscribeAll write_refused torn_down_characteristic = Returns tt c2) ∧
  (¬ write_succeeds write_refused (m_timeout torn_down_characteristic) →
     ∃ e, Characteristic.UnsubscribeAll write_refused torn_down_characteristic = Throws e c2).
Proof.
  assert (Hp : Port.UnsubscribeAll [ReadSucceeded []] bridging_port = Returns tt torn_down_port)
    by reflexivity.
  assert (Hc : Characteristic.UnsubscribeAll write_ok one_listener
               = Returns tt torn_down_characteristic) by reflexivity.
  split; [exact Hp | split; [exact Hc |]].
  exact (UnsubscribeAll_twice [ReadSucceeded []] [] bridging_port torn_down_port
           write_ok write_refused one_listener torn_down_characteristic Hp Hc).
Defined.

(** ** Listeners that throw *)

Lemma invoke_called thrown data (callbacks : list Listener) :
  (Poll.invoke thrown data callbacks).1
  = (λ callback, Invoke callback data) <$> called_listeners thrown callbacks.
Proof.
  induction callbacks as [|callback rest IH]; [done|].
  simpl. destruct (thrown callback); [done|].
  destruct (Poll.invoke thrown data rest) as [events e]. simpl in *. by rewrite IH.
Qed.

Lemma called_all_return thrown (callbacks : list Listener) :
  (∀ callback, callback ∈ callbacks → thrown callback = None) →
  called_listeners thrown callbacks = callbacks ∧
  ∀ data, (Poll.invoke thrown data callbacks).2 = None.
Proof.
  induction callbacks as [|callback rest IH]; intros Hall; [done|].
  simpl. rewrite (Hall callback) by apply list_elem_of_here.
  destruct IH as [IH1 IH2].
  { intros cb Hin. apply Hall. by apply list_elem_of_further. }
  split; [by rewrite IH1|].
  intros data. specialize (IH2 data).
  by destruct (Poll.invoke thrown data rest).
Qed.

Lemma called_first_throw thrown (callbacks : list Listener) k callback e :
  callbacks !! k = Some callback →
  thrown callback = Some e →
  (∀ j earlier, j < k → callbacks !! j = Some earlier → thrown earlier = None) →
  called_listeners thrown callbacks = take (S k) callbacks ∧
  ∀ data, (Poll.invoke thrown data callbacks).2 = Some e.
Proof.
  revert k. induction callbacks as [|cb rest IH]; intros k Hk He Hbefore; [done|].
  destruct k as [|k].
  - simpl in Hk. injection Hk as ->. simpl. rewrite He. by rewrite take_0.
  - simpl in Hk. simpl.
    rewrite (Hbefore 0 cb) by (simpl; first [lia | done]).
    destruct (IH k Hk He) as [IH1 IH2].
    { intros j earlier Hj Hlook. apply (Hbefore (S j) earlier); [lia | done]. }
    split; [by rewrite IH1|].
    intros data. specialize (IH2 data).
    by destruct (Poll.invoke thrown data rest).
Qed.

Lemma invoke_thrown thrown data (callbacks : list Listener) e :
  (Poll.invoke thrown data callbacks).2 = Some e →
  ∃ callback, callback ∈ callbacks ∧ thrown callback = Some e.
Proof.
  induction callbacks as [|cb rest IH]; [done|].
  simpl. destruct (thrown cb) as [e'|] eqn:Hcb.
  - simpl. intros [= <-]. exists cb. split; [apply list_elem_of_here | done].
  - destruct (Poll.invoke thrown data rest) as [events thrown']. simpl in *.
    intros He. destruct (IH He) as (callback & Hin & Hthrown).
    exists callback. split; [by apply list_elem_of_further | done].
Qed.

Lemma serve_spec it p :
  Poll.serve it p
  = match (if decide ((Port.Read (read_file it) 128).1 = 0) then None
           else (Poll.invoke (thrown_by it) (chunk_read (read_file it)) (m_callbacks p)).2) with
    | None => Running (Port.emit (iteration_events p it) p)
    | Some e => Terminated e (Port.emit (iteration_events p it) p)
    end.
Proof.
  unfold Poll.serve, iteration_events, chunk_read.
  destruct (Port.Read (read_file it) 128) as [read buffer]. simpl.
  destruct (decide (read = 0)) as [-> | Hread]; [done|].
  rewrite bool_decide_eq_false_2 by done.
  rewrite <- invoke_called.
  by destruct (Poll.invoke (thrown_by it) (take read buffer) (m_callbacks p)) as [events [e|]].
Qed.

Lemma Poll_thread_step_polling it p :
  polling p →
  Poll.thread_step it p = Poll.serve it p.
Proof.
  intros (Hth & Hex & Hcbs). unfold Poll.thread_step, Poll.loop_iteration.
  rewrite Hth, Hex. by rewrite bool_decide_eq_false_2.
Qed.

(** As long as the listeners return, the poll thread of [Poll] takes the
    steps of the poll thread of [Port]. *)
Lemma Poll_thread_step_returns it p :
  (∀ callback, callback ∈ m_callbacks p → (Port.Read (read_file it) 128).1 ≠ 0 →
               thrown_by it callback = None) →
  Poll.thread_step it p = Running (Port.thread_step (read_file it) p).
Proof.
  intros Hall. unfold Poll.thread_step, Port.thread_step, Poll.loop_iteration,
    Port.loop_iteration.
  destruct (m_subscriberThread p); try done.
  destruct (m_exiting p); [done|].
  destruct (bool_decide (m_callbacks p = [])); [done|].
  rewrite serve_spec. unfold iteration_events, chunk_read.
  destruct (Port.Read (read_file it) 128) as [read buffer]. simpl in *.
  destruct (decide (read = 0)) as [-> | Hread]; [done|].
  rewrite bool_decide_eq_false_2 by done.
  destruct (called_all_return (thrown_by it) (m_callbacks p)) as [-> ->]; [|done].
  intros callback Hin. by apply Hall.
Qed.

Lemma events_since_emit es p : events_since p (Port.emit es p) = es.
Proof. unfold events_since. simpl. by rewrite drop_app_length. Qed.

(** C1 as the specification words it, refuted on the bridge's own kind of
    listener: "A", "B" and "C" are registered and the poll thread
    reads two bytes.  "A" is called; "B" is called and throws (the write it
    forwards the chunk with is not reported successful); "C" is never
    called, and the process ends. *)
Lemma throwing_listener_ends_the_delivery :
  ∃ p', Poll.thread_step (write_fails "B" (ReadSucceeded chunk_12)) port_ABC
        = Terminated (BluetoothException "Failed to write value") p' ∧
        m_callbacks port_ABC = ["A"; "B"; "C"] ∧
        events_since port_ABC p' = [Invoke "A" chunk_12; Invoke "B" chunk_12] ∧
        chunks_for "C" (events_since port_ABC p') = [].
Proof. eexists. split_and!; reflexivity. Qed.

(** C1, as the code has it.  An iteration of the poll loop that reads at
    least one byte while N ≥ 1 listeners are registered calls the listeners
    in registration order, each with the same bytes, for as long as the
    calls return.  If every call returns, each of the N listeners is invoked
    exactly once and the thread goes on polling.  If the call of the
    listener at position [k] is the first that throws, the listeners 0 to
    [k] have been invoked once each, no listener behind [k] is invoked, and
    the exception, which nothing in the thread function catches, ends the
    process. *)
Theorem poll_invokes_listeners_until_one_throws (p : COMPort) (it : Iteration) :
  m_subscriberThread p = AtLoopHead →
  m_exiting p = false →
  0 < length (m_callbacks p) →
  0 < (Port.Read (read_file it) 128).1 →
  let invocation := λ callback, Invoke callback (chunk_read (read_file it)) in
  ((∀ callback, callback ∈ m_callbacks p → thrown_by it callback = None) →
   ∃ p', Poll.thread_step it p = Running p' ∧
         events_since p p' = invocation <$> m_callbacks p ∧
         length (events_since p p') = length (m_callbacks p) ∧
         (∀ i callback, m_callbacks p !! i = Some callback →
                        events_since p p' !! i = Some (invocation callback)) ∧
         (∀ i, length (m_callbacks p) ≤ i → events_since p p' !! i = None) ∧
         m_callbacks p' = m_callbacks p ∧
         m_subscriberThread p' = AtLoopHead) ∧
  (∀ k callback e,
     m_callbacks p !! k = Some callback →
     thrown_by it callback = Some e →
     (∀ j earlier, j < k → m_callbacks p !! j = Some earlier →
                   thrown_by it earlier = None) →
     ∃ p', Poll.thread_step it p = Terminated e p' ∧
           events_since p p' = invocation <$> take (S k) (m_callbacks p) ∧
           length (events_since p p') = S k ∧
           (∀ i earlier, i ≤ k → m_callbacks p !! i = Some earlier →
                         events_since p p' !! i = Some (invocation earlier)) ∧
           (∀ i, k < i → events_since p p' !! i = None)).
Proof.
  intros Hth Hex Hn Hread invocation.
  assert (Hp : polling p).
  { split_and!; [done | done |]. intros Hnil. rewrite Hnil in Hn. simpl in Hn. lia. }
  rewrite (Poll_thread_step_polling it p Hp), serve_spec.
  unfold iteration_events.
  rewrite !decide_False by lia.
  split.
  - intros Hall.
    destruct (called_all_return (thrown_by it) (m_callbacks p) Hall) as [-> ->].
    eexists. split; [reflexivity|]. rewrite events_since_emit.
    split_and!.
    + done.
    + by rewrite length_fmap.
    + intros i callback Hi. by rewrite list_lookup_fmap, Hi.
    + intros i Hi. rewrite list_lookup_fmap. by rewrite lookup_ge_None_2.
    + done.
    + done.
  - intros k callback e Hk He Hbefore.
    destruct (called_first_throw (thrown_by it) (m_callbacks p) k callback e Hk He Hbefore)
      as [-> ->].
    eexists. split; [reflexivity|]. rewrite events_since_emit.
    assert (Hlen : length (take (S k) (m_callbacks p)) = S k).
    { rewrite length_take. apply lookup_lt_Some in Hk. lia. }
    split_and!.
    + done.
    + by rewrite length_fmap.
    + intros i earlier Hi Hlook.
      rewrite list_lookup_fmap, lookup_take_lt by lia. by rewrite Hlook.
    + intros i Hi. rewrite list_lookup_fmap. rewrite lookup_ge_None_2; [done|]. lia.
Qed.

Lemma poll_invokes_listeners_witness :
  m_subscriberThread port_ABC = AtLoopHead ∧
  m_exiting port_ABC = false ∧
  0 < length (m_callbacks port_ABC) ∧
  0 < (Port.Read (ReadSucceeded chunk_12) 128).1 ∧
  (∃ p', Poll.thread_step (returning (ReadSucceeded chunk_12)) port_ABC = Running p' ∧
         events_since port_ABC p'
         = [Invoke "A" chunk_12; Invoke "B" chunk_12; Invoke "C" chunk_12]) ∧
  (∃ p', Poll.thread_step (write_fails "B" (ReadSucceeded chunk_12)) port_ABC
         = Terminated (BluetoothException "Failed to write value") p' ∧
         events_since port_ABC p' = [Invoke "A" chunk_12; Invoke "B" chunk_12]).
Proof.
  assert (H3 : 0 < length (m_callbacks port_ABC)) by (vm_compute; lia).
  assert (H4 : 0 < (Port.Read (ReadSucceeded chunk_12) 128).1) by (vm_compute; lia).
  split_and!; [reflexivity | reflexivity | exact H3 | exact H4 | |].
  - destruct (proj1 (poll_invokes_listeners_until_one_throws
                       port_ABC (returning (ReadSucceeded chunk_12)) eq_refl eq_refl H3 H4))
      as (p' & Hstep & Hev & _); [done|].
    exists p'. split; [exact Hstep | exact Hev].
  - destruct (proj2 (poll_invokes_listeners_until_one_throws
                       port_ABC (write_fails "B" (ReadSucceeded chunk_12))
                       eq_refl eq_refl H3 H4)
                    1 "B" (BluetoothException "Failed to write value") eq_refl eq_refl)
      as (p' & Hstep & Hev & _).
    { intros j earlier Hj Hlook. destruct j as [|j]; [|lia].
      injection Hlook as <-. reflexivity. }
    exists p'. split; [exact Hstep | exact Hev].
Defined.

(** C2, evaluated.  "A", "B" and "C" subscribe and get the ids 0, 1 and 2.
    Unsubscribing id 1 removes "B" and only "B": the next chunk goes to "A"
    and "C".  But "C" now sits at position 1, so unsubscribing its original
    id 2 addresses the element past the end of the sequence, which has no
    defined behaviour, on the port and on the characteristic alike.  With a
    fourth listener "D" the same two calls remove "D" and leave "C"
    subscribed. *)
Theorem Unsubscribe_original_id_after_removal :
  (Port.Subscribe "A";; Port.Subscribe "B";; Port.Subscribe "C") (Port.opened 1)
    = Returns 2 port_ABC ∧
  port_listeners port_ABC = ["A"; "B"; "C"] ∧
  (∃ p, Port.Unsubscribe 1 port_ABC = Returns tt p ∧
        port_listeners p = ["A"; "C"] ∧
        events_since p (Port.thread_step (ReadSucceeded chunk_3) p)
          = [Invoke "A" chunk_3; Invoke "C" chunk_3] ∧
        Port.Unsubscribe 2 p = Undefined) ∧
  (∃ p, (Port.Unsubscribe 1;; Port.Unsubscribe 2) port_ABCD = Returns tt p ∧
        port_listeners p = ["A"; "C"]) ∧
  characteristic_listeners characteristic_ABC = ["A"; "B"; "C"] ∧
  (∃ c, Characteristic.Unsubscribe 1 write_ok characteristic_ABC = Returns tt c ∧
        characteristic_listeners c = ["A"; "C"] ∧
        delivered (Characteristic.ValueChanged chunk_3 (m_characteristic c))
          = [Invoke "A" chunk_3; Invoke "C" chunk_3] ∧
        Characteristic.Unsubscribe 2 write_ok c = Undefined) ∧
  (∃ c, (Characteristic.Unsubscribe 1 write_ok;; Characteristic.Unsubscribe 2 write_ok)
          characteristic_ABCD = Returns tt c ∧
        characteristic_listeners c = ["A"; "C"]).
Proof.
  split_and!; try reflexivity; eexists; split_and!; reflexivity.
Qed.

(** C10.  Neither [Unsubscribe] checks its argument.  The call has a defined
    outcome exactly when [id] is below the current listener count; for every
    other [id] it reaches past the end of the listener sequence: it neither
    returns nor throws. *)
Theorem Unsubscribe_unchecked_id
    (id : nat) (p : COMPort) (call : AsyncCall GattCommunicationStatus)
    (c : WindowsBluetoothGattCharacteristic) :
  (Port.Unsubscribe id p = Undefined ↔ length (m_callbacks p) ≤ id) ∧
  (Characteristic.Unsubscribe id call c = Undefined ↔ length (m_subscribers c) ≤ id).
Proof.
  split.
  - unfold Port.Unsubscribe. run. case_decide; run; split; intros; try done; lia.
  - destruct c as [g timeout subs]. unfold Characteristic.Unsubscribe. run.
    destruct (subs !! id) as [token|] eqn:Hid; run.
    + apply lookup_lt_Some in Hid. split; [|lia].
      destruct (delete id subs); run; [|done].
      destruct (Status (task call) (wait_exit call timeout)); run; try done.
      by destruct (GetResults (task call)).
    + apply lookup_ge_None in Hid. done.
Qed.

Lemma Unsubscribe_unchecked_id_witness :
  Port.Unsubscribe 3 port_ABC = Undefined ∧
  Characteristic.Unsubscribe 3 write_ok characteristic_ABC = Undefined.
Proof.
  split.
  - apply (proj1 (Unsubscribe_unchecked_id 3 port_ABC write_ok characteristic_ABC)).
    vm_compute. lia.
  - apply (proj2 (Unsubscribe_unchecked_id 3 port_ABC write_ok characteristic_ABC)).
    vm_compute. lia.
Defined.

Lemma thread_step_never_polls r p :
  never_polls p →
  never_polls (Port.thread_step r p) ∧
  port_events (Port.thread_step r p) = port_events p.
Proof.
  unfold never_polls, Port.thread_step, Port.loop_iteration.
  intros [Hex | Hth].
  - rewrite Hex. destruct (m_subscriberThread p); simpl; split; auto.
  - destruct (m_subscriberThread p) eqn:Hstate; simpl; try done;
      (split; [right; simpl; congruence | reflexivity]).
Qed.

Lemma thread_steps_never_poll rs p :
  never_polls p → events_since p (Port.thread_steps rs p) = [].
Proof.
  intros Hnp. unfold events_since.
  assert (port_events (Port.thread_steps rs p) = port_events p) as ->.
  { unfold Port.thread_steps. revert p Hnp.
    induction rs as [|r rs IH]; intros p Hnp; [done|]. simpl.
    destruct (thread_step_never_polls r p Hnp) as [Hnp' Hev].
    by rewrite (IH _ Hnp'). }
  by rewrite drop_all.
Qed.

(** C3, evaluated.  After a teardown that returned, a new [Subscribe] does
    start a thread, but [m_exiting] is still set: whatever the port receives
    afterwards the thread delivers nothing and ends at its first step.  When
    the count drops to zero through [Unsubscribe] the thread does not exit;
    it blocks in the wait.  The next [Subscribe] wakes it and starts no
    thread, the woken thread leaves the loop, and again the new listener is
    never invoked, whatever the port receives. *)
Theorem resubscribed_listener_is_never_invoked :
  (m_exiting torn_down_port = true ∧
   ∃ p, Port.Subscribe "B" torn_down_port = Returns 0 p ∧
        port_listeners p = ["B"] ∧
        m_subscriberThread p = AtLoopHead ∧
        m_subscriberThread (Port.thread_step (ReadSucceeded chunk_3) p) = Finished ∧
        ∀ rs, events_since p (Port.thread_steps rs p) = []) ∧
  (port_listeners drained_port = [] ∧
   m_subscriberThread drained_port = InWait ∧
   ∃ p, Port.Subscribe "B" drained_port = Returns 0 p ∧
        port_listeners p = ["B"] ∧
        m_subscriberThread p = Notified ∧
        m_subscriberThread (Port.thread_step (ReadSucceeded chunk_3) p) = Finished ∧
        ∀ rs, events_since p (Port.thread_steps rs p) = []).
Proof.
  split.
  - split; [reflexivity|]. eexists. split_and!; try reflexivity.
    intros rs. apply thread_steps_never_poll. by left.
  - split; [reflexivity|]. split; [reflexivity|]. eexists. split_and!; try reflexivity.
    intros rs. apply thread_steps_never_poll. by right.
Qed.

(** The claim as the specification words it, refuted: a read that fails
    with [ERROR_GEN_FAILURE] is handled exactly like a read that found
    nothing; the thread sleeps for the refresh interval and polls again. *)
Lemma failed_read_is_swallowed :
  Port.thread_step (ReadFailed 31) bridging_port
    = Port.thread_step (ReadSucceeded []) bridging_port ∧
  events_since bridging_port (Port.thread_step (ReadFailed 31) bridging_port) = [Sleep 100] ∧
  m_subscriberThread (Port.thread_step (ReadFailed 31) bridging_port) = AtLoopHead.
Proof. split_and!; reflexivity. Qed.

(** C8, as the code has it.  [COMPort::Read] returns the byte count and
    drops the success flag of [ReadFile], so for the poll thread a failed
    read is an empty read: with listeners registered it sleeps for the
    refresh interval and then polls again, nothing is reported to anyone,
    and the thread keeps running.  Bytes are delivered exactly when the
    count is positive. *)
Theorem failed_read_is_an_empty_read (last_error : Z) (p : COMPort) :
  m_subscriberThread p = AtLoopHead →
  m_exiting p = false →
  m_callbacks p ≠ [] →
  Port.Read (ReadFailed last_error) 128 = Port.Read (ReadSucceeded []) 128 ∧
  Port.thread_step (ReadFailed last_error) p = Port.thread_step (ReadSucceeded []) p ∧
  Port.thread_step (ReadFailed last_error) p = Port.emit [Sleep (m_refreshRate p)] p ∧
  m_subscriberThread (Port.thread_step (ReadFailed last_error) p) = AtLoopHead ∧
  (∀ r, (Port.Read r 128).1 = 0 →
        Port.thread_step r p = Port.emit [Sleep (m_refreshRate p)] p).
Proof.
  intros Hth Hex Hcbs.
  assert (Hzero : ∀ r, (Port.Read r 128).1 = 0 →
            Port.thread_step r p = Port.emit [Sleep (m_refreshRate p)] p).
  { intros r Hr. unfold Port.thread_step, Port.loop_iteration.
    rewrite Hth, Hex. rewrite bool_decide_eq_false_2 by done.
    destruct (Port.Read r 128) as [read buffer]. simpl in Hr. subst read. done. }
  split_and!.
  - reflexivity.
  - by rewrite !Hzero.
  - by apply Hzero.
  - rewrite Hzero by done. done.
  - done.
Qed.

Lemma failed_read_witness :
  m_subscriberThread bridging_port = AtLoopHead ∧
  m_exiting bridging_port = false ∧
  m_callbacks bridging_port ≠ [] ∧
  Port.thread_step (ReadFailed 31) bridging_port
    = Port.emit [Sleep (m_refreshRate bridging_port)] bridging_port.
Proof.
  assert (H : m_callbacks bridging_port ≠ []).
  { vm_compute. intros H. discriminate H. }
  split_and!; [reflexivity | reflexivity | exact H |].
  exact (proj1 (proj2 (proj2
    (failed_read_is_an_empty_read 31 bridging_port eq_refl eq_refl H)))).
Defined.

(* ================================================================= *)
(** * The teardown of Connect *)

Lemma Port_UnsubscribeAll_cases racing p :
  ∃ p1, Port.UnsubscribeAll racing p = Returns tt p1 ∨
        Port.UnsubscribeAll racing p = Hangs p1.
Proof.
  unfold Port.UnsubscribeAll. run.
  match goal with |- context [joinable ?t] => destruct t end; simpl; eauto.
Qed.


Lemma Characteristic_UnsubscribeAll_cases call c :
  (write_succeeds call (m_timeout c) ∧
     ∃ c1, Characteristic.UnsubscribeAll call c = Returns tt c1) ∨
  (¬ write_succeeds call (m_timeout c) ∧
     ∃ message c1,
       Characteristic.UnsubscribeAll call c = Throws (BluetoothException message) c1).
Proof.
  destruct c as [g timeout subs]. unfold write_succeeds, Characteristic.UnsubscribeAll.
  run.
  destruct (Status (task call) (wait_exit call timeout)) eqn:Hst; run;
    try (right; split; [intros [? ?]; congruence | eauto]).
  destruct (GetResults (task call)) eqn:Hres; run;
    try (right; split; [intros [? ?]; congruence | eauto]).
  left. eauto.
Qed.

Lemma Connection_Close_cases failure c :
  (failure = None ∧ ∃ c1, Connection.Close failure c = Returns tt c1) ∨
  (failure ≠ None ∧
     ∃ message c1, Connection.Close failure c = Throws (BluetoothException message) c1).
Proof.
  unfold Connection.Close. destruct failure as [[code message]|]; run.
  - right. eauto.
  - left. eauto.
Qed.



(** C9 on a teardown whose device refuses to close: every call is made, and
    the last one ends [main] with the platform's error. *)
Example teardown_with_failing_close :
  ∃ b', Main.main_connect
          {| racing := [ReadSucceeded []]; disable_call := write_ok;
             close_failure := Some (5%Z, "Access is denied.") |} running_bridge
        = Returns 1%Z b' ∧
        attempted b' = teardown_steps ∧
        console b' = ["Exiting ...";
                      "Bluetooth error: Bluetooth error. Code: 5. Message: Access is denied."].
Proof. eexists. split_and!; reflexivity. Qed.

(* ================================================================= *)
(** * More on the registry of a serial port *)

(** X1.  When [COMPort::Subscribe] returns, the id it returns is the
    number of listeners registered before the call: the new listener sits
    at that position behind the unchanged earlier ones, a poll thread
    object exists, and the call itself delivered nothing.  The id just
    obtained is a valid argument of [Unsubscribe], and when that call
    returns the listener sequence is the one before the [Subscribe]. *)
Theorem Port_Subscribe_then_Unsubscribe
    (listener : Listener) (p p1 : COMPort) (id : nat) :
  Port.Subscribe listener p = Returns id p1 →
  id = length (m_callbacks p) ∧
  m_callbacks p1 = m_callbacks p ++ [listener] ∧
  m_callbacks p1 !! id = Some listener ∧
  (∀ i, i < id → m_callbacks p1 !! i = m_callbacks p !! i) ∧
  length (m_callbacks p1) = S (length (m_callbacks p)) ∧
  joinable (m_subscriberThread p1) = true ∧
  port_events p1 = port_events p ∧
  Port.Unsubscribe id p1 ≠ Undefined ∧
  (∀ p2, Port.Unsubscribe id p1 = Returns tt p2 → m_callbacks p2 = m_callbacks p).
Proof.
  destruct p as [h th rate ex cbs evs].
  unfold Port.Subscribe, Port.Unsubscribe. run.
  assert (Hlen : length (cbs ++ [listener]) - 1 = length cbs)
    by (rewrite length_app; simpl; lia).
  assert (Hdel : delete (length cbs) (cbs ++ [listener]) = cbs).
  { rewrite (delete_middle cbs [] listener). by rewrite app_nil_r. }
  destruct th; unfold Port.notify_all; simpl; rewrite Hlen;
    intros [= <- <-]; simpl;
    (rewrite decide_True by (rewrite length_app; simpl; lia)); simpl;
    (split_and!;
      [ reflexivity
      | reflexivity
      | by rewrite lookup_app_r, Nat.sub_diag
      | intros i Hi; by rewrite lookup_app_l
      | rewrite length_app; simpl; lia
      | reflexivity | reflexivity
      | discriminate
      | intros p2 [= <-]; exact Hdel ]).
Qed.

(** X2.  [COMPort::Unsubscribe] with an id below the listener count returns
    and erases exactly the listener at that position: the listeners before
    it keep their positions and every listener behind it moves down by one,
    so the ids handed out for them by [Subscribe] no longer designate them.
    Nothing is delivered and neither the exit flag nor the handle
    changes. *)
Theorem Port_Unsubscribe_shifts_later_ids (id : nat) (p : COMPort) :
  id < length (m_callbacks p) →
  ∃ p',
    Port.Unsubscribe id p = Returns tt p' ∧
    m_callbacks p' = delete id (m_callbacks p) ∧
    length (m_callbacks p') = length (m_callbacks p) - 1 ∧
    (∀ j, j < id → m_callbacks p' !! j = m_callbacks p !! j) ∧
    (∀ j, id ≤ j → m_callbacks p' !! j = m_callbacks p !! S j) ∧
    port_events p' = port_events p ∧
    m_exiting p' = m_exiting p ∧
    m_handle p' = m_handle p.
Proof.
  intros Hid. destruct p as [h th rate ex cbs evs]. simpl in *.
  unfold Port.Unsubscribe. run.
  destruct (decide (id < length cbs)) as [_|]; [|lia]. simpl.
  eexists. split; [reflexivity|].
  assert (Hcbs : ∀ q, m_callbacks (Port.notify_all q) = m_callbacks q)
    by (intros q; unfold Port.notify_all; by destruct (m_subscriberThread q)).
  assert (Hevs : ∀ q, port_events (Port.notify_all q) = port_events q)
    by (intros q; unfold Port.notify_all; by destruct (m_subscriberThread q)).
  assert (Hex : ∀ q, m_exiting (Port.notify_all q) = m_exiting q)
    by (intros q; unfold Port.notify_all; by destruct (m_subscriberThread q)).
  assert (Hh : ∀ q, m_handle (Port.notify_all q) = m_handle q)
    by (intros q; unfold Port.notify_all; by destruct (m_subscriberThread q)).
  fold (Port.notify_all
          (Port.set_callbacks (delete id)
             {| m_handle := h; m_subscriberThread := th; m_refreshRate := rate;
                m_exiting := ex; m_callbacks := cbs; port_events := evs |})).
  rewrite Hcbs, Hevs, Hex, Hh. simpl. split_and!; try reflexivity.
  - rewrite length_delete; [done|]. by apply lookup_lt_is_Some_2.
  - intros j Hj. by apply list_lookup_delete_lt.
  - intros j Hj. by apply list_lookup_delete_ge.
Qed.

Lemma Port_Unsubscribe_shifts_witness :
  1 < length (m_callbacks port_ABCD) ∧
  ∃ p',
    Port.Unsubscribe 1 port_ABCD = Returns tt p' ∧
    m_callbacks p' = ["A"; "C"; "D"] ∧
    m_callbacks p' !! 2 = m_callbacks port_ABCD !! 3.
Proof.
  assert (H : 1 < length (m_callbacks port_ABCD)) by (vm_compute; lia).
  split; [exact H|].
  destruct (Port_Unsubscribe_shifts_later_ids 1 port_ABCD H)
    as (p' & Hret & Hcbs & _ & _ & Hshift & _).
  exists p'. split; [exact Hret|]. split; [rewrite Hcbs; reflexivity|].
  apply Hshift. lia.
Defined.

Lemma thread_steps_cons r rs p :
  Port.thread_steps (r :: rs) p = Port.thread_steps rs (Port.thread_step r p).
Proof. reflexivity. Qed.



Lemma emit_emit es1 es2 p : Port.emit es2 (Port.emit es1 p) = Port.emit (es1 ++ es2) p.
Proof. unfold Port.emit. simpl. by rewrite app_assoc. Qed.

Lemma emit_nil p : Port.emit [] p = p.
Proof. destruct p. unfold Port.emit. simpl. by rewrite app_nil_r. Qed.

Lemma thread_step_polling r p :
  polling p → Port.thread_step r p = Port.emit (poll_events p r) p.
Proof.
  intros (Hth & Hex & Hcbs).
  unfold Port.thread_step, Port.loop_iteration, poll_events, chunk_read.
  rewrite Hth, Hex. rewrite bool_decide_eq_false_2 by done.
  destruct (Port.Read r 128) as [read buffer]. simpl.
  destruct (decide (read = 0)) as [-> | Hread].
  - done.
  - by rewrite bool_decide_eq_false_2.
Qed.

Lemma thread_steps_polling rs p :
  polling p → Port.thread_steps rs p = Port.emit (rs ≫= poll_events p) p.
Proof.
  intros Hp. rewrite <- (emit_nil p) at 1.
  change (rs ≫= poll_events p) with ([] ++ rs ≫= poll_events p).
  generalize (@nil Event) as es.
  induction rs as [|r rs IH]; intros es.
  - simpl. by rewrite app_nil_r.
  - rewrite thread_steps_cons.
    rewrite thread_step_polling by (destruct Hp as (? & ? & ?); by split_and!).
    rewrite emit_emit.
    replace (poll_events (Port.emit es p) r) with (poll_events p r) by done.
    rewrite IH. rewrite bind_cons. by rewrite app_assoc.
Qed.

Lemma chunk_read_bounds r :
  (Port.Read r 128).1 ≠ 0 → 0 < length (chunk_read r) ≤ 128.
Proof.
  unfold chunk_read. destruct r as [received | code]; simpl; [|done].
  intros Hread. rewrite take_ge by lia.
  rewrite length_take in *. lia.
Qed.

Lemma chunks_for_app listener es1 es2 :
  chunks_for listener (es1 ++ es2) = chunks_for listener es1 ++ chunks_for listener es2.
Proof. apply bind_app. Qed.

Lemma chunks_for_invocations listener data (callbacks : list Listener) :
  chunks_for listener ((λ callback, Invoke callback data) <$> callbacks)
  = replicate (length (filter (λ callback, callback = listener) callbacks)) data.
Proof.
  induction callbacks as [|callback callbacks IH]; [done|].
  rewrite fmap_cons. unfold chunks_for in *. rewrite bind_cons, IH.
  rewrite filter_cons. by destruct (decide (callback = listener)).
Qed.

Lemma Poll_thread_steps_return its p :
  (∀ it callback, it ∈ its → callback ∈ m_callbacks p →
                  (Port.Read (read_file it) 128).1 ≠ 0 → thrown_by it callback = None) →
  polling p →
  Poll.thread_steps its p = Running (Port.thread_steps (read_file <$> its) p).
Proof.
  intros Hall Hp.
  assert (Hgen : ∀ es, Poll.thread_steps its (Port.emit es p)
                       = Running (Port.thread_steps (read_file <$> its) (Port.emit es p))).
  { induction its as [|it its IH]; intros es; [done|].
    rewrite fmap_cons, thread_steps_cons. simpl.
    rewrite Poll_thread_step_returns.
    - rewrite thread_step_polling by (destruct Hp as (? & ? & ?); by split_and!).
      rewrite emit_emit. apply IH.
      intros it' callback Hin. apply Hall. by apply list_elem_of_further.
    - intros callback Hin. apply Hall; [apply list_elem_of_here | done]. }
  specialize (Hgen []). by rewrite emit_nil in Hgen.
Qed.

Lemma Poll_thread_steps_app before rest p :
  Poll.thread_steps (before ++ rest) p
  = match Poll.thread_steps before p with
    | Running p' => Poll.thread_steps rest p'
    | Terminated e p' => Terminated e p'
    end.
Proof.
  revert p. induction before as [|it before IH]; intros p; [done|].
  simpl. destruct (Poll.thread_step it p) as [p'|e p']; [apply IH | done].
Qed.

Lemma thread_steps_deliver (rs : list ReadFileResult) (p : COMPort) :
  polling p →
  (∀ listener,
     chunks_for listener (rs ≫= poll_events p)
     = fruitful rs ≫= λ r,
         replicate (length (filter (λ callback, callback = listener) (m_callbacks p)))
                   (chunk_read r)) ∧
  Forall (λ e, match e with
               | Invoke callback data =>
                   callback ∈ m_callbacks p ∧ 0 < length data ≤ 128
               | Sleep milliseconds => milliseconds = m_refreshRate p
               end)
         (rs ≫= poll_events p).
Proof.
  intros Hp. split.
  - intros listener. induction rs as [|r rs IH]; [done|].
    rewrite bind_cons, chunks_for_app, IH. unfold fruitful. rewrite filter_cons.
    unfold poll_events at 1.
    destruct (decide ((Port.Read r 128).1 = 0)) as [Hz | Hnz].
    + rewrite decide_False by (intros H; by apply H). done.
    + rewrite decide_True by done. rewrite bind_cons.
      by rewrite chunks_for_invocations.
  - induction rs as [|r rs IH]; [by apply Forall_nil|].
    rewrite bind_cons. apply Forall_app. split; [|done].
    unfold poll_events. destruct (decide ((Port.Read r 128).1 = 0)) as [Hz | Hnz].
    + by apply Forall_singleton.
    + apply Forall_fmap, Forall_forall. intros callback Hin. simpl.
      split; [done | by apply chunk_read_bounds].
Qed.

(** X5.  A polling thread handles the reads one by one and in order: each
    read without bytes, failed or not, costs one sleep of the refresh
    interval, and each read with bytes is handed, as it is and at once, to
    the registered listeners in registration order.  As long as the
    listeners return, a listener receives the chunks of the reads that
    brought bytes, in the order they were read, neither merged nor split nor
    repeated (once per time it is registered); every chunk has between 1 and
    128 bytes; only registered listeners are invoked; and the thread changes
    nothing else of the port.  The first call that throws ends all of it:
    the reads before have been delivered in full, the chunk at hand has
    reached the listeners up to the one that threw, and neither the
    listeners behind it nor any later read is served, because the process
    is terminated. *)
Theorem poll_thread_delivers_until_a_listener_throws
    (its : list Iteration) (p : COMPort) :
  polling p →
  ((∀ it callback, it ∈ its → callback ∈ m_callbacks p →
                   (Port.Read (read_file it) 128).1 ≠ 0 → thrown_by it callback = None) →
   ∃ p', Poll.thread_steps its p = Running p' ∧
         p' = Port.emit ((read_file <$> its) ≫= poll_events p) p ∧
         (∀ listener,
            chunks_for listener (events_since p p')
            = fruitful (read_file <$> its) ≫= λ r,
                replicate (length (filter (λ callback, callback = listener) (m_callbacks p)))
                          (chunk_read r)) ∧
         Forall (λ e, match e with
                      | Invoke callback data =>
                          callback ∈ m_callbacks p ∧ 0 < length data ≤ 128
                      | Sleep milliseconds => milliseconds = m_refreshRate p
                      end)
                (events_since p p')) ∧
  (∀ before it later k callback e,
     its = before ++ it :: later →
     (∀ it' callback', it' ∈ before → callback' ∈ m_callbacks p →
                       (Port.Read (read_file it') 128).1 ≠ 0 →
                       thrown_by it' callback' = None) →
     (Port.Read (read_file it) 128).1 ≠ 0 →
     m_callbacks p !! k = Some callback →
     thrown_by it callback = Some e →
     (∀ j earlier, j < k → m_callbacks p !! j = Some earlier →
                   thrown_by it earlier = None) →
     ∃ p', Poll.thread_steps its p = Terminated e p' ∧
           events_since p p'
           = ((read_file <$> before) ≫= poll_events p) ++
             ((λ callback, Invoke callback (chunk_read (read_file it)))
                <$> take (S k) (m_callbacks p))).
Proof.
  intros Hp. split.
  - intros Hall. eexists. split; [by apply Poll_thread_steps_return|].
    rewrite thread_steps_polling by done. split; [done|].
    rewrite events_since_emit. by apply thread_steps_deliver.
  - intros before it later k callback e -> Hbefore Hread Hk He Hearlier.
    rewrite Poll_thread_steps_app.
    rewrite (Poll_thread_steps_return before p Hbefore Hp).
    rewrite thread_steps_polling by done.
    set (es := (read_file <$> before) ≫= poll_events p).
    assert (Hp' : polling (Port.emit es p)) by (by destruct Hp as (? & ? & ?)).
    simpl. rewrite (Poll_thread_step_polling it _ Hp'), serve_spec.
    unfold iteration_events. rewrite !decide_False by done.
    change (m_callbacks (Port.emit es p)) with (m_callbacks p).
    destruct (called_first_throw (thrown_by it) (m_callbacks p) k callback e Hk He Hearlier)
      as [-> ->].
    eexists. split; [reflexivity|].
    by rewrite emit_emit, events_since_emit.
Qed.

Lemma poll_thread_delivers_witness :
  polling port_ABC ∧
  (∃ p', Poll.thread_steps
           (returning <$> [ReadSucceeded chunk_12; ReadSucceeded []; ReadFailed 31;
                           ReadSucceeded chunk_3]) port_ABC = Running p' ∧
         chunks_for "B" (events_since port_ABC p') = [chunk_12; chunk_3]) ∧
  (∃ p', Poll.thread_steps
           [returning (ReadSucceeded chunk_12); write_fails "B" (ReadSucceeded chunk_3);
            returning (ReadSucceeded chunk_12)] port_ABC
         = Terminated (BluetoothException "Failed to write value") p' ∧
         events_since port_ABC p'
         = [Invoke "A" chunk_12; Invoke "B" chunk_12; Invoke "C" chunk_12;
            Invoke "A" chunk_3; Invoke "B" chunk_3]).
Proof.
  assert (H : polling port_ABC).
  { split_and!; [reflexivity | reflexivity | intros H; discriminate H]. }
  split; [exact H|]. split.
  - destruct (proj1 (poll_thread_delivers_until_a_listener_throws
               (returning <$> [ReadSucceeded chunk_12; ReadSucceeded []; ReadFailed 31;
                               ReadSucceeded chunk_3]) port_ABC H))
      as (p' & Hrun & _ & Hchunks & _).
    { intros it callback Hin _ _.
      apply list_elem_of_fmap in Hin as (r & -> & _). reflexivity. }
    exists p'. split; [exact Hrun|]. rewrite Hchunks. reflexivity.
  - destruct (proj2 (poll_thread_delivers_until_a_listener_throws
               [returning (ReadSucceeded chunk_12); write_fails "B" (ReadSucceeded chunk_3);
                returning (ReadSucceeded chunk_12)] port_ABC H)
               [returning (ReadSucceeded chunk_12)] (write_fails "B" (ReadSucceeded chunk_3))
               [returning (ReadSucceeded chunk_12)] 1 "B"
               (BluetoothException "Failed to write value") eq_refl)
      as (p' & Hrun & Hev).
    + intros it' callback' Hin _ _.
      apply list_elem_of_singleton in Hin. by subst it'.
    + vm_compute. lia.
    + reflexivity.
    + reflexivity.
    + intros j earlier Hj Hlook. destruct j as [|j]; [|lia].
      injection Hlook as <-. reflexivity.
    + exists p'. split; [exact Hrun|]. rewrite Hev. reflexivity.
Defined.

Lemma Port_UnsubscribeAll_keeps_events racing p p' :
  state_after (Port.UnsubscribeAll racing p) = Some p' →
  port_events p' = port_events p ∧ m_handle p' = m_handle p ∧
  m_refreshRate p' = m_refreshRate p.
Proof.
  unfold Port.UnsubscribeAll. run.
  set (q0 := Port.set_exiting true p).
  assert (Hq : port_events (Port.thread_steps racing q0) = port_events p ∧
               m_handle (Port.thread_steps racing q0) = m_handle p ∧
               m_refreshRate (Port.thread_steps racing q0) = m_refreshRate p).
  { assert (Hex0 : m_exiting q0 = true) by done.
    assert (Hev0 : port_events q0 = port_events p ∧ m_handle q0 = m_handle p ∧
                   m_refreshRate q0 = m_refreshRate p) by done.
    clearbody q0. unfold Port.thread_steps.
    revert q0 Hex0 Hev0. induction racing as [|r rs IH]; intros q0 Hex0 Hev0; [done|].
    simpl. apply IH.
    - unfold Port.thread_step, Port.loop_iteration. rewrite Hex0.
      by destruct (m_subscriberThread q0).
    - unfold Port.thread_step, Port.loop_iteration. rewrite Hex0.
      by destruct (m_subscriberThread q0). }
  set (q := Port.thread_steps racing q0) in *. clearbody q.
  destruct q as [h th rate ex cbs evs]. simpl in *.
  destruct Hq as (-> & -> & ->).
  unfold Port.notify_all. simpl.
  destruct th; simpl; intros [= <-]; done.
Qed.

Lemma Poll_thread_steps_never_poll its p :
  never_polls p →
  ∃ p', Poll.thread_steps its p = Running p' ∧ port_events p' = port_events p.
Proof.
  revert p. induction its as [|it its IH]; intros p Hp; [by exists p|].
  simpl.
  assert (Hstep : ∃ q, Poll.thread_step it p = Running q ∧
                       port_events q = port_events p ∧ never_polls q).
  { unfold Poll.thread_step, Poll.loop_iteration, never_polls in *.
    destruct (m_subscriberThread p) eqn:Hth.
    - exists p. split_and!; [done | done |]. right. by rewrite Hth.
    - destruct Hp as [Hex | Hne]; [|done]. rewrite Hex.
      eexists. split_and!; [reflexivity | done |]. by left.
    - exists p. split_and!; [done | done |]. right. by rewrite Hth.
    - eexists. split_and!; [reflexivity | done |]. by right.
    - exists p. split_and!; [done | done |]. right. by rewrite Hth. }
  destruct Hstep as (q & -> & Hev & Hq).
  destruct (IH q Hq) as (p' & Hrun & Hev'). exists p'. split; [done | congruence].
Qed.

Lemma Port_UnsubscribeAll_empties racing p p' :
  state_after (Port.UnsubscribeAll racing p) = Some p' →
  m_callbacks p' = [] ∧ m_exiting p' = true.
Proof.
  unfold Port.UnsubscribeAll. run.
  set (q0 := Port.set_exiting true p).
  assert (Hq : m_exiting (Port.thread_steps racing q0) = true).
  { assert (Hex0 : m_exiting q0 = true) by done.
    clearbody q0. unfold Port.thread_steps.
    revert q0 Hex0. induction racing as [|r rs IH]; intros q0 Hex0; [done|].
    simpl. apply IH.
    unfold Port.thread_step, Port.loop_iteration. rewrite Hex0.
    by destruct (m_subscriberThread q0). }
  set (q := Port.thread_steps racing q0) in *. clearbody q.
  destruct q as [h th rate ex cbs evs]. simpl in *. subst ex.
  unfold Port.notify_all. simpl.
  destruct th; simpl; intros [= <-]; done.
Qed.

Lemma Port_UnsubscribeAll_state racing p :
  ∃ p', state_after (Port.UnsubscribeAll racing p) = Some p'.
Proof.
  destruct (Port_UnsubscribeAll_cases racing p) as [p1 [-> | ->]]; by exists p1.
Qed.

Lemma called_listeners_registered thrown (callbacks : list Listener) :
  (∀ callback, callback ∈ called_listeners thrown callbacks → callback ∈ callbacks) ∧
  length (called_listeners thrown callbacks) ≤ length callbacks.
Proof.
  induction callbacks as [|cb rest [IH1 IH2]]; [done|].
  simpl. destruct (thrown cb).
  - split; [|simpl; lia]. intros callback Hin.
    apply list_elem_of_singleton in Hin as ->. apply list_elem_of_here.
  - split; [|simpl; lia]. intros callback Hin.
    apply elem_of_cons in Hin as [-> | Hin]; [apply list_elem_of_here|].
    apply list_elem_of_further. by apply IH1.
Qed.

Lemma events_since_appended p p' es :
  port_events p' = port_events p ++ es → events_since p p' = es.
Proof. intros H. unfold events_since. rewrite H. by rewrite drop_app_length. Qed.

(** X4.  What [COMPort::UnsubscribeAll] lets through.  The call itself
    invokes no listener and no iteration that starts after the write of
    [m_exiting] does; but an iteration that had passed its test of the flag
    when the flag was written runs to its end while the caller waits for
    the mutex.  So during the call the port records exactly what that
    iteration records, if there is one, and nothing otherwise: one sleep,
    or one chunk handed to the listeners registered when the call began (to
    all of them, or to those up to the first that throws, which terminates
    the process).  From the moment the call has run (returned or blocked)
    the listener list is empty, the exit flag is set and no later step of
    the poll thread records anything. *)
Theorem UnsubscribeAll_lets_only_an_iteration_in_flight_through
    (in_flight : option Iteration) (racing : list ReadFileResult)
    (later : list Iteration) (p : COMPort) :
  let during :=
    match in_flight with
    | Some it => if decide (polling p) then iteration_events p it else []
    | None => []
    end in
  Forall (λ e, match e with
               | Invoke callback data =>
                   callback ∈ m_callbacks p ∧ 0 < length data ≤ 128 ∧
                   ∃ it, in_flight = Some it ∧ data = chunk_read (read_file it)
               | Sleep milliseconds => milliseconds = m_refreshRate p
               end) during ∧
  length during ≤ Nat.max 1 (length (m_callbacks p)) ∧
  match Poll.UnsubscribeAll in_flight racing p with
  | Ended o =>
      ∃ p', state_after o = Some p' ∧
            events_since p p' = during ∧
            m_callbacks p' = [] ∧
            m_exiting p' = true ∧
            ∃ p'', Poll.thread_steps later p' = Running p'' ∧
                   events_since p' p'' = []
  | Aborted e p' =>
      events_since p p' = during ∧
      ∃ it callback, in_flight = Some it ∧ polling p ∧
                     callback ∈ m_callbacks p ∧ thrown_by it callback = Some e
  end.
Proof.
  intros during.
  assert (Hplain : ∀ q, port_events q = port_events p ++ during →
            ∃ p', state_after (Port.UnsubscribeAll racing q) = Some p' ∧
                  events_since p p' = during ∧ m_callbacks p' = [] ∧ m_exiting p' = true ∧
                  ∃ p'', Poll.thread_steps later p' = Running p'' ∧
                         events_since p' p'' = []).
  { intros q Hq. destruct (Port_UnsubscribeAll_state racing q) as [p' Hp'].
    destruct (Port_UnsubscribeAll_keeps_events racing q p' Hp') as (Hev & _ & _).
    destruct (Port_UnsubscribeAll_empties racing q p' Hp') as (Hcbs & Hex).
    exists p'. split_and!; try done.
    - apply events_since_appended. by rewrite Hev.
    - destruct (Poll_thread_steps_never_poll later p') as (p'' & Hrun & Hev'');
        [by left|].
      exists p''. split; [done|]. apply events_since_appended. by rewrite app_nil_r. }
  subst during. unfold Poll.UnsubscribeAll.
  destruct in_flight as [it|].
  2: { split_and!; [by apply Forall_nil | simpl; lia |].
       apply Hplain. by rewrite app_nil_r. }
  destruct (decide (polling p)) as [Hp | Hnp].
  2: { split_and!; [by apply Forall_nil | simpl; lia |].
       apply Hplain. by rewrite app_nil_r. }
  destruct (called_listeners_registered (thrown_by it) (m_callbacks p)) as [Hsub Hlen].
  split_and!.
  - unfold iteration_events. case_decide as Hread; [by apply Forall_singleton|].
    apply Forall_fmap, Forall_forall. intros callback Hin. simpl.
    split; [by apply Hsub|]. split; [by apply chunk_read_bounds | by exists it].
  - unfold iteration_events. case_decide; [simpl; lia|]. rewrite length_fmap. lia.
  - rewrite serve_spec.
    change (iteration_events (Port.set_exiting true p) it) with (iteration_events p it).
    change (m_callbacks (Port.set_exiting true p)) with (m_callbacks p).
    destruct (if decide ((Port.Read (read_file it) 128).1 = 0) then None
              else (Poll.invoke (thrown_by it) (chunk_read (read_file it))
                      (m_callbacks p)).2) as [e|] eqn:Hthrown.
    + split; [by rewrite (events_since_appended p _ (iteration_events p it))|].
      case_decide; [done|].
      destruct (invoke_thrown _ _ _ _ Hthrown) as (callback & Hin & He).
      by exists it, callback.
    + by apply Hplain.
Qed.

(** A teardown that begins while the poll thread is handing a chunk to the
    listeners: the three listeners of the port are called once more while
    [UnsubscribeAll] waits for the mutex; the call then returns and the port
    is silent. *)
Example UnsubscribeAll_during_a_delivery :
  ∃ p', Poll.UnsubscribeAll (Some (returning (ReadSucceeded chunk_3)))
          [ReadSucceeded []] port_ABC = Ended (Returns tt p') ∧
        events_since port_ABC p'
        = [Invoke "A" chunk_3; Invoke "B" chunk_3; Invoke "C" chunk_3] ∧
        m_callbacks p' = [] ∧
        m_subscriberThread p' = NotJoinable.
Proof. eexists. split_and!; reflexivity. Qed.

(* ================================================================= *)
(** * More on the registry of a characteristic *)

Lemma filter_other_tokens (hs : list (event_token * Listener)) (token : event_token) :
  token ∉ (fst <$> hs) → filter (λ h, h.1 ≠ token) hs = hs.
Proof.
  induction hs as [|h hs IH]; [done|]. rewrite fmap_cons, not_elem_of_cons.
  intros [Hne Hnotin]. rewrite filter_cons, decide_True by done. by rewrite IH.
Qed.

Lemma filter_token_delete (hs : list (event_token * Listener)) (i : nat) (token : event_token) :
  NoDup (fst <$> hs) → (fst <$> hs) !! i = Some token →
  filter (λ h, h.1 ≠ token) hs = delete i hs.
Proof.
  revert i. induction hs as [|h hs IH]; intros i Hnd Hi; [done|].
  rewrite fmap_cons in Hnd, Hi. apply NoDup_cons in Hnd as [Hnotin Hnd].
  rewrite filter_cons. destruct i as [|i]; simpl in *.
  - injection Hi as <-. rewrite decide_False by (intros H; by apply H).
    by apply filter_other_tokens.
  - assert (h.1 ≠ token).
    { intros Heq. apply Hnotin. rewrite Heq. by eapply list_elem_of_lookup_2. }
    rewrite decide_True by done. by rewrite (IH i).
Qed.

Lemma remove_all_handlers (hs : list (event_token * Listener)) next d reqs evs :
  foldl (λ g token, Characteristic.remove_handler token g)
        {| handlers := hs; next_token := next; descriptor := d;
           requested := reqs; delivered := evs |} (fst <$> hs)
  = {| handlers := []; next_token := next; descriptor := d;
       requested := reqs; delivered := evs |}.
Proof.
  assert (Hgen : ∀ (tokens : list event_token) hs0,
    (∀ h, h ∈ hs0 → h.1 ∈ tokens) →
    foldl (λ g token, Characteristic.remove_handler token g)
        {| handlers := hs0; next_token := next; descriptor := d;
           requested := reqs; delivered := evs |} tokens
    = {| handlers := []; next_token := next; descriptor := d;
         requested := reqs; delivered := evs |}).
  { induction tokens as [|token tokens IH]; intros hs0 Hcov.
    - destruct hs0 as [|h hs0]; [done|].
      specialize (Hcov h ltac:(left)). by apply elem_of_nil in Hcov.
    - simpl. unfold Characteristic.remove_handler at 2. simpl. apply IH.
      intros h Hh. apply list_elem_of_filter in Hh as [Hne Hin].
      specialize (Hcov h Hin). apply elem_of_cons in Hcov as [? | ?]; done. }
  apply Hgen. intros h Hh. by apply list_elem_of_fmap_2.
Qed.

(** X6.  After every [Subscribe], [Unsubscribe] and [UnsubscribeAll],
    whether it returns or throws, [m_subscribers] still lists exactly the
    tokens of the [ValueChanged] handlers registered with the platform, in
    the same order and without repetition: no handler is left behind without
    its token and no token without its handler. *)
Theorem tokens_consistent_preserved
    (op : RegistryOp) (call : AsyncCall GattCommunicationStatus)
    (c c' : WindowsBluetoothGattCharacteristic) :
  tokens_consistent c →
  state_after (run_op op call c) = Some c' →
  tokens_consistent c'.
Proof.
  destruct c as [[hs next d reqs evs] timeout subs].
  unfold tokens_consistent. simpl. intros (Hfst & Hnd & Hlt). subst subs.
  assert (Hsnoc : ∀ listener,
    (fst <$> hs ++ [(next, listener)]) = (fst <$> hs) ++ [next] ∧
    NoDup ((fst <$> hs) ++ [next]) ∧
    Forall (λ token, token < S next) ((fst <$> hs) ++ [next])).
  { intros listener. split_and!.
    - by rewrite fmap_app.
    - apply NoDup_app. split_and!; [done | | apply NoDup_singleton].
      intros token Hin Hnext. apply list_elem_of_singleton in Hnext as ->.
      rewrite Forall_forall in Hlt. specialize (Hlt _ Hin). lia.
    - apply Forall_app. split; [|apply Forall_singleton; lia].
      eapply Forall_impl; [exact Hlt|]. simpl. lia. }
  destruct op as [listener|id|]; unfold run_op.
  - unfold Characteristic.Subscribe. run.
    destruct hs as [|h hs']; run.
    + destruct (Status (task call) (wait_exit call timeout)); run;
        try (intros [= <-]; simpl; split_and!; done).
      destruct (GetResults (task call)); run;
        intros [= <-]; simpl; split_and!; try done.
      * apply NoDup_singleton.
      * apply Forall_singleton. lia.
    + intros [= <-]. apply (Hsnoc listener).
  - unfold Characteristic.Unsubscribe. run.
    destruct ((fst <$> hs) !! id) as [token|] eqn:Hid; run; [|done].
    assert (Hafter :
      (fst <$> filter (λ h, h.1 ≠ token) hs) = delete id (fst <$> hs) ∧
      NoDup (delete id (fst <$> hs)) ∧
      Forall (λ token, token < next) (delete id (fst <$> hs))).
    { split_and!.
      - rewrite (filter_token_delete hs id token) by done. apply list_fmap_delete.
      - eapply sublist_NoDup; [exact Hnd | apply sublist_delete].
      - by apply Forall_delete. }
    destruct (delete id (fst <$> hs)) as [|t ts] eqn:Hdel; run.
    + destruct (Status (task call) (wait_exit call timeout)); run;
        try (intros [= <-]; simpl; rewrite ?Hdel; exact Hafter).
      destruct (GetResults (task call)); run;
        intros [= <-]; simpl; rewrite ?Hdel; exact Hafter.
    + intros [= <-]. simpl. rewrite ?Hdel. exact Hafter.
  - unfold Characteristic.UnsubscribeAll. run.
    unfold Characteristic.on_platform at 2. simpl. rewrite remove_all_handlers.
    destruct (Status (task call) (wait_exit call timeout)); run;
      try (intros [= <-]; simpl; split_and!; [done | apply NoDup_nil_2 | done]).
    destruct (GetResults (task call)); run;
      intros [= <-]; simpl; split_and!; try done; apply NoDup_nil_2.
Qed.

Lemma tokens_consistent_witness :
  tokens_consistent characteristic_ABC ∧
  state_after (run_op (OpUnsubscribe 1) write_ok characteristic_ABC)
    = Some (returned (Characteristic.Unsubscribe 1 write_ok characteristic_ABC)
                     characteristic_ABC) ∧
  tokens_consistent (returned (Characteristic.Unsubscribe 1 write_ok characteristic_ABC)
                              characteristic_ABC).
Proof.
  assert (H : tokens_consistent characteristic_ABC).
  { unfold tokens_consistent. split_and!; [reflexivity | | ];
      apply (bool_decide_unpack _); vm_compute; exact I. }
  split; [exact H|]. split; [reflexivity|].
  exact (tokens_consistent_preserved (OpUnsubscribe 1) write_ok characteristic_ABC _ H eq_refl).
Defined.

(** X7.  [Subscribe] on a characteristic that already has listeners needs no
    descriptor write and cannot fail; on an empty one it requests exactly
    one write of [Notify] and goes on only when that write is reported
    successful.  In both cases it returns the number of listeners registered
    before the call, and the new listener is added behind the existing ones
    under a token never handed out before. *)
Theorem Characteristic_Subscribe_appends
    (listener : Listener) (call : AsyncCall GattCommunicationStatus)
    (c : WindowsBluetoothGattCharacteristic) :
  m_subscribers c ≠ [] ∨ write_succeeds call (m_timeout c) →
  ∃ c',
    Characteristic.Subscribe listener call c = Returns (length (m_subscribers c)) c' ∧
    characteristic_listeners c' = characteristic_listeners c ++ [listener] ∧
    m_subscribers c' = m_subscribers c ++ [next_token (m_characteristic c)] ∧
    next_token (m_characteristic c') = S (next_token (m_characteristic c)) ∧
    requested (m_characteristic c')
      = requested (m_characteristic c) ++
        (if decide (m_subscribers c = []) then [CccdNotify] else []) ∧
    (m_subscribers c = [] → enabled c') ∧
    (m_subscribers c ≠ [] →
       descriptor (m_characteristic c') = descriptor (m_characteristic c)).
Proof.
  destruct c as [[hs next d reqs evs] timeout subs].
  unfold write_succeeds, characteristic_listeners, enabled. simpl. intros Hpre.
  unfold Characteristic.Subscribe. run.
  destruct subs as [|token subs]; run.
  - destruct Hpre as [? | [-> ->]]; [done|]. run.
    eexists. split; [reflexivity|]. simpl. split_and!; try done.
    by rewrite fmap_app.
  - replace (length (subs ++ [next]) - 0) with (S (length subs))
      by (rewrite length_app; simpl; lia).
    eexists. split; [reflexivity|]. simpl.
    rewrite app_nil_r. split_and!; try done.
    by rewrite fmap_app.
Qed.

Lemma Characteristic_Subscribe_appends_witness :
  (m_subscribers characteristic_ABC ≠ [] ∨
   write_succeeds write_unanswered (m_timeout characteristic_ABC)) ∧
  ∃ c',
    Characteristic.Subscribe "D" write_unanswered characteristic_ABC = Returns 3 c' ∧
    characteristic_listeners c' = ["A"; "B"; "C"; "D"].
Proof.
  assert (H : m_subscribers characteristic_ABC ≠ [] ∨
              write_succeeds write_unanswered (m_timeout characteristic_ABC)).
  { left. vm_compute. intros H. discriminate H. }
  split; [exact H|].
  destruct (Characteristic_Subscribe_appends "D" write_unanswered characteristic_ABC H)
    as (c' & Hret & Hls & _).
  exists c'. split; [exact Hret | exact Hls].
Defined.

(** X8.  On a characteristic whose tokens mirror its handlers, [Unsubscribe]
    with an id below the listener count unregisters exactly the handler at
    that position, and it does so before it touches the descriptor, so also
    when it then throws.  The listeners behind that position move down by
    one.  A write of [None] is requested only when the last listener was
    removed. *)
Theorem Characteristic_Unsubscribe_removes_position
    (id : nat) (call : AsyncCall GattCommunicationStatus)
    (c c' : WindowsBluetoothGattCharacteristic) :
  tokens_consistent c →
  id < length (m_subscribers c) →
  state_after (Characteristic.Unsubscribe id call c) = Some c' →
  characteristic_listeners c' = delete id (characteristic_listeners c) ∧
  m_subscribers c' = delete id (m_subscribers c) ∧
  requested (m_characteristic c')
    = requested (m_characteristic c) ++
      (if decide (length (m_subscribers c) = 1) then [CccdNone] else []).
Proof.
  destruct c as [[hs next d reqs evs] timeout subs].
  unfold tokens_consistent, characteristic_listeners. simpl.
  intros (Hfst & Hnd & _) Hid. subst subs.
  destruct (lookup_lt_is_Some_2 _ _ Hid) as [token Htoken].
  unfold Characteristic.Unsubscribe. run. rewrite Htoken. run.
  unfold Characteristic.on_platform, Characteristic.set_subscribers,
    Characteristic.remove_handler. simpl.
  rewrite !(filter_token_delete hs id token) by done.
  assert (Hone : length (fst <$> hs) = 1 ↔ delete id (fst <$> hs) = []).
  { rewrite <- length_zero_iff_nil, length_delete by eauto. lia. }
  destruct (delete id (fst <$> hs)) as [|t ts] eqn:Hdel; run.
  - rewrite decide_True by (by apply Hone).
    destruct (Status (task call) (wait_exit call timeout)); run;
      try (intros [= <-]; simpl; rewrite ?Hdel; split_and!;
           [apply list_fmap_delete | done | done]).
    destruct (GetResults (task call)); run;
      intros [= <-]; simpl; rewrite ?Hdel; split_and!;
        try done; apply list_fmap_delete.
  - rewrite decide_False by (intros H; by apply Hone in H).
    intros [= <-]. simpl. rewrite ?Hdel, app_nil_r. split_and!; try done.
    apply list_fmap_delete.
Qed.

Lemma Characteristic_Unsubscribe_removes_witness :
  tokens_consistent characteristic_ABCD ∧
  1 < length (m_subscribers characteristic_ABCD) ∧
  characteristic_listeners
    (returned (Characteristic.Unsubscribe 1 write_ok characteristic_ABCD) characteristic_ABCD)
  = delete 1 (characteristic_listeners characteristic_ABCD).
Proof.
  assert (H : tokens_consistent characteristic_ABCD).
  { unfold tokens_consistent. split_and!; [reflexivity | | ];
      apply (bool_decide_unpack _); vm_compute; exact I. }
  assert (Hid : 1 < length (m_subscribers characteristic_ABCD)) by (vm_compute; lia).
  split; [exact H|]. split; [exact Hid|].
  exact (proj1 (Characteristic_Unsubscribe_removes_position
                  1 write_ok characteristic_ABCD _ H Hid eq_refl)).
Defined.

(* ================================================================= *)
(** * Addresses and UUIDs as text *)

Example address_text_sample :
  BluetoothAddressToString sample_address = String.list_ascii_of_string "C4:BE:84:A1:F2:03"
  ∧ BluetoothAddressFromString (String.list_ascii_of_string "C4:BE:84:A1:F2:03")
    = Converted sample_address
  ∧ UUIDToString sample_uuid
    = String.list_ascii_of_string "0000FFE1-0000-1000-8000-00805F9B34FB".
Proof. split_and!; vm_compute; reflexivity. Qed.

Lemma hex_digit_facts d :
  (0 ≤ d < 16)%Z →
  hex_value (hex_digit d) = Some d ∧
  isspace (hex_digit d) = false ∧
  Ascii.eqb (hex_digit d) "-" = false ∧
  Ascii.eqb (hex_digit d) "+" = false ∧
  Ascii.eqb (hex_digit d) "x" = false ∧
  Ascii.eqb (hex_digit d) "X" = false ∧
  hex_digit d ≠ ":"%char ∧
  hex_digit d ≠ "-"%char.
Proof.
  intros Hd.
  assert (d = 0 ∨ d = 1 ∨ d = 2 ∨ d = 3 ∨ d = 4 ∨ d = 5 ∨ d = 6 ∨ d = 7 ∨
          d = 8 ∨ d = 9 ∨ d = 10 ∨ d = 11 ∨ d = 12 ∨ d = 13 ∨ d = 14 ∨ d = 15)%Z
    as Hcases by lia.
  repeat destruct Hcases as [-> | Hcases]; try subst d;
    (split_and!; [reflexivity | reflexivity | reflexivity | reflexivity
                 | reflexivity | reflexivity | discriminate | discriminate ]).
Qed.

Lemma length_hex_digits n value : length (hex_digits n value) = n.
Proof.
  revert value. induction n as [|n IH]; intros value; [done|].
  simpl. rewrite length_app, IH. simpl. lia.
Qed.

Lemma hex_digits_are_hex n value : Forall is_hex_digit (hex_digits n value).
Proof.
  revert value. induction n as [|n IH]; intros value; [by apply Forall_nil|].
  simpl. apply Forall_app. split; [apply IH|]. apply Forall_singleton.
  exists (value `mod` 16)%Z. split; [|done]. apply Z.mod_pos_bound. lia.
Qed.

Lemma hex_width_fits (width : nat) value :
  (0 ≤ value < 16 ^ Z.of_nat width)%Z → 0 < width → hex_width value ≤ width.
Proof.
  intros [Hlo Hhi] Hw. unfold hex_width. case_decide; [lia|].
  assert (Z.log2 value < 4 * Z.of_nat width)%Z.
  { apply Z.log2_lt_pow2; [lia|].
    replace (2 ^ (4 * Z.of_nat width))%Z with (16 ^ Z.of_nat width)%Z; [done|].
    rewrite Z.pow_mul_r by lia. reflexivity. }
  assert (Z.log2 value / 4 < Z.of_nat width)%Z
    by (apply Z.div_lt_upper_bound; lia).
  pose proof (Z.log2_nonneg value).
  assert (0 ≤ Z.log2 value / 4)%Z by (apply Z.div_pos; lia).
  lia.
Qed.

Lemma format_X_fits (width : nat) value :
  (0 ≤ value < 16 ^ Z.of_nat width)%Z → 0 < width →
  format_X width value = hex_digits width value.
Proof.
  intros Hv Hw. unfold format_X.
  by rewrite Nat.max_l by (by apply hex_width_fits).
Qed.

(** [sprintf] never writes fewer digits than asked for, and more only when
    the value needs them. *)
Lemma length_format_X width value :
  length (format_X width value) = Nat.max width (hex_width value).
Proof. apply length_hex_digits. Qed.

Lemma union_byte_range value i : (0 ≤ union_byte value i < 16 ^ Z.of_nat 2)%Z.
Proof.
  unfold union_byte. change 255%Z with (Z.ones 8).
  rewrite Z.land_ones by lia. change (16 ^ Z.of_nat 2)%Z with (2 ^ 8)%Z.
  apply Z.mod_pos_bound. lia.
Qed.

Lemma hex_prefix_digits acc count (ds : list Z) :
  Forall (λ d, 0 ≤ d < 16)%Z ds →
  hex_prefix acc count (hex_digit <$> ds) = (digits_value acc ds, count + length ds).
Proof.
  revert acc count. induction ds as [|d ds IH]; intros acc count Hds.
  - simpl. f_equal. lia.
  - apply Forall_cons in Hds as [Hd Hds]. simpl.
    destruct (hex_digit_facts d Hd) as (-> & _). rewrite IH by done.
    f_equal. lia.
Qed.

Lemma digits_value_bound acc (ds : list Z) :
  (0 ≤ acc)%Z → Forall (λ d, 0 ≤ d < 16)%Z ds →
  (0 ≤ digits_value acc ds < (acc + 1) * 16 ^ Z.of_nat (length ds))%Z.
Proof.
  revert acc. induction ds as [|d ds IH]; intros acc Hacc Hds.
  - simpl. lia.
  - apply Forall_cons in Hds as [Hd Hds]. simpl length.
    rewrite Nat2Z.inj_succ, Z.pow_succ_r by lia.
    unfold digits_value in *. simpl.
    specialize (IH (16 * acc + d)%Z ltac:(lia) Hds).
    assert (0 < 16 ^ Z.of_nat (length ds))%Z by (apply Z.pow_pos_nonneg; lia).
    nia.
Qed.

(** Upper-case hexadecimal digits, at least one and at most sixteen, are
    converted to the number they denote. *)
Lemma stoull_16_digits (ds : list Z) :
  Forall (λ d, 0 ≤ d < 16)%Z ds → ds ≠ [] → length ds ≤ 16 →
  stoull_16 (hex_digit <$> ds) = Converted (digits_value 0 ds).
Proof.
  intros Hds Hne Hlen. unfold stoull_16.
  destruct ds as [|d0 ds]; [done|].
  pose proof Hds as Hall. apply Forall_cons in Hds as [Hd0 Hds].
  destruct (hex_digit_facts d0 Hd0) as (Hv0 & Hsp0 & Hm0 & Hp0 & _ & _ & _ & _).
  rewrite fmap_cons. simpl skip_spaces. rewrite Hsp0.
  unfold skip_sign. rewrite Hm0, Hp0.
  assert (Hpre : skip_0x (hex_digit d0 :: (hex_digit <$> ds))
                 = hex_digit d0 :: (hex_digit <$> ds)).
  { unfold skip_0x. destruct ds as [|d1 ds]; [done|].
    apply Forall_cons in Hds as [Hd1 Hds].
    destruct (hex_digit_facts d1 Hd1) as (_ & _ & _ & _ & Hx & HX & _ & _).
    rewrite fmap_cons. destruct (hex_digit <$> ds); [done|].
    by rewrite Hx, HX, andb_false_r. }
  rewrite Hpre. rewrite <- fmap_cons. rewrite hex_prefix_digits by done.
  rewrite decide_False by (simpl; lia).
  pose proof (digits_value_bound 0 (d0 :: ds) ltac:(lia) Hall) as Hb.
  assert (16 ^ Z.of_nat (length (d0 :: ds)) ≤ 16 ^ 16)%Z
    by (apply Z.pow_le_mono_r; lia).
  rewrite decide_False; [done|].
  change (2 ^ 64)%Z with (16 ^ 16)%Z. lia.
Qed.

Lemma remove_colon_hex_digits n value rest :
  remove_char ":" (hex_digits n value ++ rest)
  = hex_digits n value ++ remove_char ":" rest.
Proof.
  unfold remove_char. rewrite filter_app. f_equal.
  pose proof (hex_digits_are_hex n value) as Hall.
  induction Hall as [|c cs [d [Hd ->]] _ IH]; [done|].
  rewrite filter_cons, decide_True by (by apply hex_digit_facts). by rewrite IH.
Qed.

Lemma remove_colon_colon rest :
  remove_char ":" (":"%char :: rest) = remove_char ":" rest.
Proof. reflexivity. Qed.

Lemma union_byte_div value i :
  (0 ≤ i)%Z → union_byte value i = ((value / 2 ^ (8 * i)) `mod` 256)%Z.
Proof.
  intros Hi. unfold union_byte. change 255%Z with (Z.ones 8).
  rewrite Z.land_ones by lia. rewrite Z.shiftr_div_pow2 by lia. reflexivity.
Qed.

Lemma address_digits_value address :
  let b i := union_byte address i in
  digits_value 0
    [(b 5 / 16) `mod` 16; b 5 `mod` 16; (b 4 / 16) `mod` 16; b 4 `mod` 16;
     (b 3 / 16) `mod` 16; b 3 `mod` 16; (b 2 / 16) `mod` 16; b 2 `mod` 16;
     (b 1 / 16) `mod` 16; b 1 `mod` 16; (b 0 / 16) `mod` 16; b 0 `mod` 16]%Z
  = (address `mod` 2 ^ 48)%Z.
Proof.
  intros b. subst b. cbv beta.
  rewrite !union_byte_div by lia.
  unfold digits_value. simpl foldl.
  change (2 ^ (8 * 5))%Z with 1099511627776%Z.
  change (2 ^ (8 * 4))%Z with 4294967296%Z.
  change (2 ^ (8 * 3))%Z with 16777216%Z.
  change (2 ^ (8 * 2))%Z with 65536%Z.
  change (2 ^ (8 * 1))%Z with 256%Z.
  change (2 ^ (8 * 0))%Z with 1%Z.
  change (2 ^ 48)%Z with 281474976710656%Z.
  Z.div_mod_to_equations. lia.
Qed.

Lemma hex_digits_2 value :
  hex_digits 2 value = hex_digit <$> [(value / 16) `mod` 16; value `mod` 16]%Z.
Proof. reflexivity. Qed.

Lemma address_text_digits address :
  remove_char ":" (BluetoothAddressToString address)
  = hex_digit <$>
      (let b i := union_byte address i in
       [(b 5 / 16) `mod` 16; b 5 `mod` 16; (b 4 / 16) `mod` 16; b 4 `mod` 16;
        (b 3 / 16) `mod` 16; b 3 `mod` 16; (b 2 / 16) `mod` 16; b 2 `mod` 16;
        (b 1 / 16) `mod` 16; b 1 `mod` 16; (b 0 / 16) `mod` 16; b 0 `mod` 16]%Z).
Proof.
  unfold BluetoothAddressToString, remove_char.
  rewrite !format_X_fits by (apply union_byte_range || lia).
  rewrite !hex_digits_2. simpl.
  repeat first
    [ rewrite filter_cons_True by (apply hex_digit_facts, Z.mod_pos_bound; lia)
    | rewrite filter_cons_False by (intros H; by apply H) ].
  reflexivity.
Qed.

(** X9.  [BluetoothAddressToString] always writes seventeen characters, so
    with the terminating zero it stays inside its buffer of twenty: six
    groups of two upper-case hexadecimal digits (twelve digits in all)
    separated by five colons, the most significant of the six low bytes
    first.  The two high bytes of the
    address do not appear. *)
Theorem BluetoothAddressToString_shape (address : Z) :
  length (BluetoothAddressToString address) = 17 ∧
  (∀ i, i ∈ [2; 5; 8; 11; 14] → BluetoothAddressToString address !! i = Some ":"%char) ∧
  length (remove_char ":" (BluetoothAddressToString address)) = 12 ∧
  Forall is_hex_digit (remove_char ":" (BluetoothAddressToString address)) ∧
  BluetoothAddressToString (address `mod` 2 ^ 48) = BluetoothAddressToString address.
Proof.
  assert (Hshape : ∃ d0 d1 d2 d3 d4 d5 d6 d7 d8 d9 d10 d11,
    Forall (λ d, 0 ≤ d < 16)%Z [d0; d1; d2; d3; d4; d5; d6; d7; d8; d9; d10; d11] ∧
    BluetoothAddressToString address
    = [hex_digit d0; hex_digit d1; ":"; hex_digit d2; hex_digit d3; ":";
       hex_digit d4; hex_digit d5; ":"; hex_digit d6; hex_digit d7; ":";
       hex_digit d8; hex_digit d9; ":"; hex_digit d10; hex_digit d11]%char).
  { unfold BluetoothAddressToString.
    rewrite !format_X_fits by (apply union_byte_range || lia).
    rewrite !hex_digits_2. do 12 eexists. split; [|reflexivity].
    repeat (apply Forall_cons; split; [apply Z.mod_pos_bound; lia|]).
    apply Forall_nil_2. }
  destruct Hshape as (d0&d1&d2&d3&d4&d5&d6&d7&d8&d9&d10&d11&Hds&Heq).
  split_and!.
  - by rewrite Heq.
  - rewrite Heq. intros i Hi.
    repeat (apply elem_of_cons in Hi as [-> | Hi]; [reflexivity|]).
    by apply elem_of_nil in Hi.
  - by rewrite address_text_digits.
  - rewrite address_text_digits. apply Forall_fmap, Forall_forall.
    intros d Hd. exists d. split; [|done].
    repeat (apply elem_of_cons in Hd as [-> | Hd]; [apply Z.mod_pos_bound; lia|]).
    by apply elem_of_nil in Hd.
  - unfold BluetoothAddressToString.
    assert (Hb : ∀ i, (0 ≤ i < 6)%Z →
              union_byte (address `mod` 2 ^ 48) i = union_byte address i).
    { intros i Hi. rewrite !union_byte_div by lia.
      assert (i = 0 ∨ i = 1 ∨ i = 2 ∨ i = 3 ∨ i = 4 ∨ i = 5)%Z as Hcases by lia.
      change (2 ^ 48)%Z with 281474976710656%Z.
      repeat destruct Hcases as [-> | Hcases]; try subst i;
        match goal with |- context [(2 ^ ?e)%Z] =>
          let v := eval vm_compute in (2 ^ e)%Z in change (2 ^ e)%Z with v end;
        Z.div_mod_to_equations; lia. }
    by rewrite !Hb by lia.
Qed.

(** X10.  Reading back what [BluetoothAddressToString] wrote gives the
    address again: [BluetoothAddressFromString] converts it, without error,
    to the low 48 bits of the address, hence to the address itself whenever
    that is a 48-bit device address. *)
Theorem BluetoothAddress_round_trip (address : Z) :
  BluetoothAddressFromString (BluetoothAddressToString address)
    = Converted (address `mod` 2 ^ 48) ∧
  ((0 ≤ address < 2 ^ 48)%Z →
   BluetoothAddressFromString (BluetoothAddressToString address) = Converted address).
Proof.
  assert (Hrt : BluetoothAddressFromString (BluetoothAddressToString address)
                = Converted (address `mod` 2 ^ 48)).
  { unfold BluetoothAddressFromString. rewrite address_text_digits.
    cbv zeta. rewrite stoull_16_digits.
    - by rewrite address_digits_value.
    - repeat (apply Forall_cons; split; [apply Z.mod_pos_bound; lia|]).
      apply Forall_nil_2.
    - done.
    - simpl. lia. }
  split; [exact Hrt|]. intros Hrange. rewrite Hrt. f_equal.
  by apply Z.mod_small.
Qed.

Lemma BluetoothAddress_round_trip_witness :
  (0 ≤ sample_address < 2 ^ 48)%Z ∧
  BluetoothAddressFromString (BluetoothAddressToString sample_address)
    = Converted sample_address.
Proof.
  assert (H : (0 ≤ sample_address < 2 ^ 48)%Z) by (vm_compute; split; [discriminate | reflexivity]).
  split; [exact H|].
  exact (proj2 (BluetoothAddress_round_trip sample_address) H).
Defined.

Lemma digits_value_lower acc (ds : list Z) :
  (0 ≤ acc)%Z → Forall (λ d, 0 ≤ d < 16)%Z ds →
  (acc * 16 ^ Z.of_nat (length ds) ≤ digits_value acc ds)%Z.
Proof.
  revert acc. induction ds as [|d ds IH]; intros acc Hacc Hds.
  - simpl. lia.
  - apply Forall_cons in Hds as [Hd Hds]. simpl length.
    rewrite Nat2Z.inj_succ, Z.pow_succ_r by lia.
    unfold digits_value in *. simpl.
    specialize (IH (16 * acc + d)%Z ltac:(lia) Hds).
    assert (0 < 16 ^ Z.of_nat (length ds))%Z by (apply Z.pow_pos_nonneg; lia).
    nia.
Qed.

Lemma stoull_16_hex (ds : list Z) :
  Forall (λ d, 0 ≤ d < 16)%Z ds → ds ≠ [] →
  stoull_16 (hex_digit <$> ds)
  = if decide (2 ^ 64 ≤ digits_value 0 ds)%Z then out_of_range
    else Converted (digits_value 0 ds).
Proof.
  intros Hds Hne. unfold stoull_16.
  destruct ds as [|d0 ds]; [done|].
  pose proof Hds as Hall. apply Forall_cons in Hds as [Hd0 Hds].
  destruct (hex_digit_facts d0 Hd0) as (Hv0 & Hsp0 & Hm0 & Hp0 & _ & _ & _ & _).
  rewrite fmap_cons. simpl skip_spaces. rewrite Hsp0.
  unfold skip_sign. rewrite Hm0, Hp0.
  assert (Hpre : skip_0x (hex_digit d0 :: (hex_digit <$> ds))
                 = hex_digit d0 :: (hex_digit <$> ds)).
  { unfold skip_0x. destruct ds as [|d1 ds]; [done|].
    apply Forall_cons in Hds as [Hd1 Hds].
    destruct (hex_digit_facts d1 Hd1) as (_ & _ & _ & _ & Hx & HX & _ & _).
    rewrite fmap_cons. destruct (hex_digit <$> ds); [done|].
    by rewrite Hx, HX, andb_false_r. }
  rewrite Hpre. rewrite <- fmap_cons. rewrite hex_prefix_digits by done.
  by rewrite decide_False by (simpl; lia).
Qed.

(** X11.  What [BluetoothAddressFromString] refuses.  A text without any
    character but colons, the empty text included, is
    [std::invalid_argument]: no address is made up.  When the text is
    hexadecimal digits and colons, the colons are dropped wherever they
    stand, up to sixteen digits are converted to the number they denote,
    and seventeen or more digits after a non-zero first digit are
    [std::out_of_range]. *)
Theorem BluetoothAddressFromString_edges :
  (∀ s : text, Forall (λ c, c = ":"%char) s →
               BluetoothAddressFromString s = invalid_argument) ∧
  (∀ (s : text) (ds : list Z),
     ds ≠ [] → Forall (λ d, 0 ≤ d < 16)%Z ds →
     remove_char ":" s = hex_digit <$> ds →
     (length ds ≤ 16 → BluetoothAddressFromString s = Converted (digits_value 0 ds)) ∧
     (16 < length ds → (0 < hd 0 ds)%Z → BluetoothAddressFromString s = out_of_range)).
Proof.
  split.
  - intros s Hs. unfold BluetoothAddressFromString, remove_char.
    assert (filter (λ x, x ≠ ":"%char) s = []) as ->; [|reflexivity].
    induction Hs as [|c s -> _ IH]; [done|].
    by rewrite filter_cons_False by (intros H; by apply H).
  - intros s ds Hne Hds Hs. unfold BluetoothAddressFromString. rewrite Hs.
    rewrite stoull_16_hex by done. split.
    + intros Hlen. rewrite decide_False; [done|].
      pose proof (digits_value_bound 0 ds ltac:(lia) Hds) as Hb.
      assert (16 ^ Z.of_nat (length ds) ≤ 16 ^ 16)%Z
        by (apply Z.pow_le_mono_r; lia).
      change (2 ^ 64)%Z with (16 ^ 16)%Z. lia.
    + intros Hlen Hfirst. rewrite decide_True; [done|].
      destruct ds as [|d0 ds]; [done|]. simpl in Hfirst, Hlen.
      apply Forall_cons in Hds as [Hd0 Hds].
      unfold digits_value. simpl.
      pose proof (digits_value_lower (16 * 0 + d0) ds ltac:(lia) Hds) as Hb.
      unfold digits_value in Hb.
      assert (16 ^ 16 ≤ 16 ^ Z.of_nat (length ds))%Z
        by (apply Z.pow_le_mono_r; lia).
      change (2 ^ 64)%Z with (16 ^ 16)%Z. nia.
Qed.

Lemma BluetoothAddressFromString_edges_witness :
  BluetoothAddressFromString [":"; ":"]%char = invalid_argument ∧
  BluetoothAddressFromString (String.list_ascii_of_string "1:0000:0000:0000:0000")
    = out_of_range.
Proof.
  split.
  - apply (proj1 BluetoothAddressFromString_edges).
    repeat (apply Forall_cons; split; [reflexivity|]). apply Forall_nil_2.
  - apply (proj2 BluetoothAddressFromString_edges _
             [1; 0; 0; 0; 0; 0; 0; 0; 0; 0; 0; 0; 0; 0; 0; 0; 0]%Z).
    + discriminate.
    + repeat (apply Forall_cons; split; [lia|]). apply Forall_nil_2.
    + reflexivity.
    + simpl. lia.
    + simpl. lia.
Defined.

(** X12.  For every UUID the field types admit, [UUIDToString] writes
    thirty-six characters (its buffer holds thirty-eight) in the groups
    8-4-4-4-12 with dashes between them, [UUIDToShortString] writes eight
    (its buffer holds nine), and the short form is the first group of the
    long one. *)
Theorem UUIDToString_shape (uuid : BluetoothUUID) :
  uuid_in_range uuid →
  length (UUIDToString uuid) = 36 ∧
  length (UUIDToShortString uuid) = 8 ∧
  take 8 (UUIDToString uuid) = UUIDToShortString uuid ∧
  (∀ i, i ∈ [8; 13; 18; 23] → UUIDToString uuid !! i = Some "-"%char) ∧
  length (remove_char "-" (UUIDToString uuid)) = 32 ∧
  Forall is_hex_digit (remove_char "-" (UUIDToString uuid)).
Proof.
  destruct uuid as [c p2 p3 p4]. unfold uuid_in_range. simpl.
  intros (Hc & Hp2 & Hp3 & Hlen & Hp4).
  do 8 (destruct p4 as [|? p4]; [discriminate Hlen|]).
  destruct p4; [|discriminate Hlen]. clear Hlen.
  rewrite !Forall_cons in Hp4.
  unfold UUIDToString, UUIDToShortString, part4_at. simpl nth. simpl custom.
  simpl part2. simpl part3.
  rewrite !format_X_fits by (simpl; lia).
  assert (Hhex : ∀ n v, Forall is_hex_digit (hex_digits n v) ∧
                        remove_char "-" (hex_digits n v) = hex_digits n v).
  { intros n v. split; [apply hex_digits_are_hex|].
    unfold remove_char. pose proof (hex_digits_are_hex n v) as Hall.
    induction Hall as [|x xs [d [Hd ->]] _ IH]; [done|].
    rewrite filter_cons_True by (by apply hex_digit_facts). by rewrite IH. }
  assert (Happ : ∀ n v rest,
    remove_char "-" (hex_digits n v ++ rest) = hex_digits n v ++ remove_char "-" rest).
  { intros n v rest. unfold remove_char at 1. rewrite filter_app.
    fold (remove_char "-" (hex_digits n v)). by rewrite (proj2 (Hhex n v)). }
  assert (Hdash : ∀ rest, remove_char "-" (["-"%char] ++ rest) = remove_char "-" rest)
    by reflexivity.
  split_and!.
  - rewrite !length_app, !length_hex_digits. reflexivity.
  - apply length_hex_digits.
  - rewrite take_app_length'; [done | by rewrite length_hex_digits].
  - intros i Hi.
    repeat (apply elem_of_cons in Hi as [-> | Hi]; [reflexivity|]).
    by apply elem_of_nil in Hi.
  - repeat first [rewrite Happ | rewrite Hdash]. rewrite (proj2 (Hhex _ _)).
    rewrite !length_app, !length_hex_digits. reflexivity.
  - repeat first [rewrite Happ | rewrite Hdash]. rewrite (proj2 (Hhex _ _)).
    rewrite !Forall_app. split_and!; apply hex_digits_are_hex.
Qed.

Lemma UUIDToString_shape_witness :
  uuid_in_range sample_uuid ∧
  length (UUIDToString sample_uuid) = 36 ∧
  take 8 (UUIDToString sample_uuid) = UUIDToShortString sample_uuid.
Proof.
  assert (H : uuid_in_range sample_uuid).
  { unfold uuid_in_range, sample_uuid. simpl. split_and!; try lia; try reflexivity.
    repeat (apply Forall_cons; split; [lia|]). apply Forall_nil_2. }
  destruct (UUIDToString_shape sample_uuid H) as (Hlen & _ & Htake & _).
  split; [exact H|]. split; [exact Hlen | exact Htake].
Defined.

(* ================================================================= *)
(** * Discovery, devices and services *)

Lemma notify_addresses output device :
  m_deviceAddress <$> Discovery.notify output device
  = if decide (m_deviceAddress device ∈ m_deviceAddress <$> output)
    then m_deviceAddress <$> output
    else (m_deviceAddress <$> output) ++ [m_deviceAddress device].
Proof.
  unfold Discovery.notify.
  destruct (decide (m_deviceAddress device ∈ m_deviceAddress <$> output)) as [Hin | Hnotin].
  - rewrite bool_decide_eq_true_2; [done|].
    apply list_elem_of_fmap in Hin as (current & Heq & Hin).
    apply Exists_exists. eauto.
  - rewrite bool_decide_eq_false_2; [by rewrite fmap_app|].
    intros Hex. apply Exists_exists in Hex as (current & Hin & Heq).
    apply Hnotin. rewrite Heq. by apply list_elem_of_fmap_2.
Qed.

Lemma scan_cons args adverts output :
  Discovery.scan (args :: adverts) output
  = Discovery.scan adverts (Discovery.notify output (Discovery.received args)).
Proof. reflexivity. Qed.

Lemma scan_extends adverts output :
  ∃ found, Discovery.scan adverts output = output ++ found.
Proof.
  revert output. induction adverts as [|args adverts IH]; intros output.
  - exists []. by rewrite app_nil_r.
  - rewrite scan_cons. destruct (IH (Discovery.notify output (Discovery.received args)))
      as [found ->].
    unfold Discovery.notify. case_bool_decide.
    + by exists found.
    + exists (Discovery.received args :: found). by rewrite <- app_assoc.
Qed.

Lemma scan_NoDup adverts output :
  NoDup (m_deviceAddress <$> output) →
  NoDup (m_deviceAddress <$> Discovery.scan adverts output).
Proof.
  revert output. induction adverts as [|args adverts IH]; intros output Hnd; [done|].
  rewrite scan_cons. apply IH. rewrite notify_addresses. case_decide; [done|].
  apply NoDup_app. split_and!; [done | | apply NoDup_singleton].
  intros a Ha Hnew. apply list_elem_of_singleton in Hnew as ->. done.
Qed.

Lemma scan_addresses adverts output address :
  address ∈ m_deviceAddress <$> Discovery.scan adverts output ↔
  address ∈ m_deviceAddress <$> output ∨ address ∈ AdvertisedAddress <$> adverts.
Proof.
  revert output. induction adverts as [|args adverts IH]; intros output.
  - simpl. rewrite elem_of_nil. tauto.
  - rewrite scan_cons, IH, notify_addresses, fmap_cons, elem_of_cons.
    change (m_deviceAddress (Discovery.received args)) with (AdvertisedAddress args).
    case_decide.
    + split; [tauto|]. intros [? | [-> | ?]]; tauto.
    + rewrite elem_of_app, list_elem_of_singleton. tauto.
Qed.

Lemma scan_first_advertisement before args later output :
  AdvertisedAddress args ∉ m_deviceAddress <$> output →
  AdvertisedAddress args ∉ AdvertisedAddress <$> before →
  Discovery.received args ∈ Discovery.scan (before ++ args :: later) output.
Proof.
  intros Hfresh Hfirst.
  assert (Hmid : AdvertisedAddress args
                 ∉ m_deviceAddress <$> Discovery.scan before output).
  { rewrite scan_addresses. tauto. }
  unfold Discovery.scan in *. rewrite foldl_app. simpl.
  set (mid := foldl _ output before) in *.
  fold (Discovery.scan later (Discovery.notify mid (Discovery.received args))).
  destruct (scan_extends later (Discovery.notify mid (Discovery.received args)))
    as [found2 ->].
  unfold Discovery.notify. rewrite bool_decide_eq_false_2.
  - apply elem_of_app. left. apply elem_of_app. right.
    by apply list_elem_of_singleton.
  - intros Hex. apply Exists_exists in Hex as (current & Hin & Heq).
    apply Hmid. simpl in Heq. rewrite Heq. by apply list_elem_of_fmap_2.
Qed.

(** X13.  [ScanDevices] only appends to the vector it is given, and it adds
    a device only for an address the vector does not hold yet: a vector
    without repeated addresses stays so, every advertised address ends up in
    it, and nothing else does.  The device recorded for a new address is the
    one built from the first advertisement of that address (with the name
    "(unnamed)" if that advertisement carried none); later advertisements of
    the same address change nothing. *)
Theorem ScanDevices_lists_each_address_once
    (adverts : list Advertisement) (output : list WindowsBluetoothDevice) :
  ∃ found,
    Discovery.ScanDevices None adverts output = Returns tt (output ++ found) ∧
    (NoDup (m_deviceAddress <$> output) → NoDup (m_deviceAddress <$> output ++ found)) ∧
    (∀ address, address ∈ m_deviceAddress <$> output ++ found ↔
                address ∈ m_deviceAddress <$> output ∨
                address ∈ AdvertisedAddress <$> adverts) ∧
    (∀ before args later,
       adverts = before ++ args :: later →
       AdvertisedAddress args ∉ m_deviceAddress <$> output →
       AdvertisedAddress args ∉ AdvertisedAddress <$> before →
       Discovery.received args ∈ found).
Proof.
  destruct (scan_extends adverts output) as [found Hfound].
  exists found. split; [unfold Discovery.ScanDevices; run; by rewrite Hfound|].
  rewrite <- Hfound. split_and!.
  - apply scan_NoDup.
  - apply scan_addresses.
  - intros before args later -> Hfresh Hfirst.
    pose proof (scan_first_advertisement before args later output Hfresh Hfirst) as Hin.
    rewrite Hfound in Hin. apply elem_of_app in Hin as [Hin | Hin]; [|done].
    exfalso. apply Hfresh.
    change (AdvertisedAddress args) with (m_deviceAddress (Discovery.received args)).
    by apply list_elem_of_fmap_2.
Qed.

Lemma connect_keeps_device env timeout d :
  ∀ d', state_after (Device.connect env timeout d) = Some d' → d' = d.
Proof.
  intros d'. unfold Device.connect. run.
  destruct (Status (task (device_call env)) (wait_exit (device_call env) timeout)); run;
    try (by intros [= <-]).
  destruct (Status (task (services_call env)) (wait_exit (services_call env) timeout)); run;
    try (by intros [= <-]).
  case_bool_decide; run; by intros [= <-].
Qed.

(** X14.  A [WindowsBluetoothDevice] never stores a connection it opens:
    [m_openConnection] is empty after construction and still empty after any
    series of [OpenConnection] calls, whatever their outcome.  So
    [GetOpenConnection] answers [nullopt] even right after a successful
    [OpenConnection], and every [OpenConnection] runs the platform lookups
    again, returning a connection exactly when both are reported successful
    and throwing a [BluetoothException] otherwise. *)
Theorem OpenConnection_never_caches
    (deviceAddress : Z) (deviceName : string)
    (calls : list (OpenConnectionEnv * nat)) (env : OpenConnectionEnv) (timeout : nat) :
  let d := Device.after_calls calls (Device.constructed deviceAddress deviceName) in
  d = Device.constructed deviceAddress deviceName ∧
  (∀ is_open, Device.GetOpenConnection is_open d = None) ∧
  Device.OpenConnection env timeout d = Device.connect env timeout d ∧
  returns_or_BluetoothException (Device.OpenConnection env timeout d) ∧
  (∀ connection d',
     Device.OpenConnection env timeout d = Returns connection d' ↔
     d' = d ∧
     Status (task (device_call env)) (wait_exit (device_call env) timeout) = Completed ∧
     Status (task (services_call env)) (wait_exit (services_call env) timeout) = Completed ∧
     services_status (GetResults (task (services_call env))) = Success ∧
     connection = {| m_services := Services (GetResults (task (services_call env)));
                     device_closed := false |}).
Proof.
  intros d.
  assert (Hd : d = Device.constructed deviceAddress deviceName).
  { subst d. unfold Device.after_calls.
    induction calls as [|call calls IH] using rev_ind; [done|].
    rewrite foldl_app. simpl. rewrite IH.
    destruct (state_after _) as [d'|] eqn:Hafter; [|done]. simpl.
    revert Hafter. unfold Device.OpenConnection. run. apply connect_keeps_device. }
  rewrite Hd. split; [done|]. split; [done|]. split; [reflexivity|].
  unfold Device.OpenConnection, Device.connect, returns_or_BluetoothException. run.
  destruct (Status (task (device_call env)) (wait_exit (device_call env) timeout)); run.
  2:{ destruct (Status (task (services_call env)) (wait_exit (services_call env) timeout));
        run.
      2:{ destruct (GetResults (task (services_call env))) as [[] services]; run;
            (split; [done|]); intros connection d';
            (split; [intros [= <- <-] | intros (-> & _ & _ & ? & ->)]); done. }
      all: split; [done|]; intros connection d';
        (split; [done | intros (_ & _ & ? & _); done]). }
  all: split; [done|]; intros connection d';
    (split; [done | intros (_ & ? & _); done]).
Qed.

(** X15.  [FetchCharacteristics] either fails and leaves the cached
    characteristics as they were, or replaces them all: afterwards the cache
    holds one new object per characteristic the platform reported, in the
    platform's order, each with the service's timeout and no subscriber.
    Nothing of the previous cache survives, so fetching twice with the same
    answer gives the same cache as fetching once. *)
Theorem FetchCharacteristics_replaces_the_cache
    (call : AsyncCall GattCharacteristicsResult) (s : WindowsBluetoothGattService) :
  (¬ fetch_succeeds call (service_timeout s) →
     ∃ message, Service.FetchCharacteristics call s = Throws (BluetoothException message) s) ∧
  (fetch_succeeds call (service_timeout s) →
     ∃ s',
       Service.FetchCharacteristics call s = Returns tt s' ∧
       (m_uuid <$> m_characteristics s') = (Uuid <$> Characteristics (GetResults (task call))) ∧
       Forall (λ c, m_subscribers (object c) = [] ∧ m_timeout (object c) = service_timeout s)
              (m_characteristics s') ∧
       service_uuid s' = service_uuid s ∧ service_timeout s' = service_timeout s ∧
       Service.FetchCharacteristics call s' = Returns tt s').
Proof.
  destruct s as [handle timeout uuid cs]. unfold fetch_succeeds. simpl.
  unfold Service.FetchCharacteristics. run.
  destruct (Status (task call) (wait_exit call timeout)) eqn:Hst; run;
    try (split; [eauto | intros [? _]; done]).
  destruct (GetResults (task call)) as [[] found] eqn:Hres; run;
    try (split; [eauto | intros [_ ?]; done]).
  split; [intros H; destruct H; done|]. intros _.
  eexists. split; [reflexivity|]. simpl. split_and!; try done.
  - by rewrite <- list_fmap_compose.
  - apply Forall_fmap, Forall_forall. intros c _. done.
  - unfold Service.set_characteristics. simpl. by rewrite Hst.
Qed.

Lemma FetchCharacteristics_witness :
  fetch_succeeds fetch_ok (service_timeout empty_service) ∧
  ∃ s', Service.FetchCharacteristics fetch_ok empty_service = Returns tt s' ∧
        (m_uuid <$> m_characteristics s') = [vendor_uuid; sample_uuid].
Proof.
  assert (H : fetch_succeeds fetch_ok (service_timeout empty_service))
    by (split; reflexivity).
  split; [exact H|].
  destruct (proj2 (FetchCharacteristics_replaces_the_cache fetch_ok empty_service) H)
    as (s' & Hret & Huuids & _).
  exists s'. split; [exact Hret | exact Huuids].
Defined.

(** X16.  [GetCharacteristic] returns the first cached characteristic whose
    UUID equals the one asked for, comparing every field, and the empty
    pointer exactly when no cached characteristic has that UUID (in
    particular before the first fetch).  Asked, as [Connect] does, for the
    UUID [GetBluetoothUUID] builds from a short id, it can therefore only
    ever return a characteristic whose last three fields are those of the
    generic UUID. *)
Theorem GetCharacteristic_first_match
    (uuid : BluetoothUUID) (s : WindowsBluetoothGattService) :
  (Service.GetCharacteristic uuid s = None ↔ uuid ∉ m_uuid <$> m_characteristics s) ∧
  (∀ c, Service.GetCharacteristic uuid s = Some c →
        m_uuid c = uuid ∧
        ∃ i, m_characteristics s !! i = Some c ∧
             ∀ j c', j < i → m_characteristics s !! j = Some c' → m_uuid c' ≠ uuid) ∧
  (∀ generic id c,
     Service.GetCharacteristic (GetBluetoothUUID generic id) s = Some c →
     custom (m_uuid c) = id ∧ part2 (m_uuid c) = part2 generic ∧
     part3 (m_uuid c) = part3 generic ∧ part4 (m_uuid c) = part4 generic).
Proof.
  unfold Service.GetCharacteristic. generalize (m_characteristics s) as cs. intros cs.
  assert (Hfirst : ∀ uuid c, Service.lookup_characteristic uuid cs = Some c →
        m_uuid c = uuid ∧
        ∃ i, cs !! i = Some c ∧ ∀ j c', j < i → cs !! j = Some c' → m_uuid c' ≠ uuid).
  { clear uuid. intros uuid c. induction cs as [|c0 cs IH]; [done|]. simpl.
    case_decide as Heq.
    - intros [= <-]. split; [done|]. exists 0. split; [done|]. intros j c' Hj. lia.
    - intros Hfound. destruct (IH Hfound) as (Huuid & i & Hi & Hbefore).
      split; [done|]. exists (S i). split; [done|].
      intros [|j] c' Hj; simpl; [by intros [= <-]|].
      apply Hbefore. lia. }
  split_and!.
  - clear Hfirst. induction cs as [|c0 cs IH]; simpl.
    + split; [intros _; apply not_elem_of_nil | done].
    + rewrite not_elem_of_cons. case_decide as Heq.
      * split; [done | intros [Hne _]; by destruct Hne].
      * rewrite IH. split; [|tauto]. intros Hnotin. split; [|done].
        intros Hu. by apply Heq.
  - apply Hfirst.
  - intros generic id c Hfound. destruct (Hfirst _ _ Hfound) as [-> _]. done.
Qed.

(** X17.  No [winrt::hresult_error] leaves the Bluetooth layer: [Subscribe],
    [Unsubscribe] (with an id below the listener count), [UnsubscribeAll] and
    [Read] of a characteristic, [FetchCharacteristics], the connection's
    [Close], [OpenConnection] and [ScanDevices] each either return or throw
    a [BluetoothException], for every answer of the platform.  [Read]
    changes nothing of the characteristic and returns the value's bytes
    exactly when the read completes with [Success].  The handlers of [main]
    catch every such failure: the process ends with a status instead of an
    uncaught exception. *)
Theorem Bluetooth_failures_are_BluetoothExceptions :
  (∀ listener call c,
     returns_or_BluetoothException (Characteristic.Subscribe listener call c)) ∧
  (∀ id call c, id < length (m_subscribers c) →
     returns_or_BluetoothException (Characteristic.Unsubscribe id call c)) ∧
  (∀ call c, returns_or_BluetoothException (Characteristic.UnsubscribeAll call c)) ∧
  (∀ call c,
     returns_or_BluetoothException (Characteristic_Read call c) ∧
     state_after (Characteristic_Read call c) = Some c ∧
     (∀ data c', Characteristic_Read call c = Returns data c' ↔
        c' = c ∧ Status (task call) (wait_exit call (m_timeout c)) = Completed ∧
        read_status (GetResults (task call)) = Success ∧
        data = Value (GetResults (task call)))) ∧
  (∀ call s, returns_or_BluetoothException (Service.FetchCharacteristics call s)) ∧
  (∀ failure connection,
     returns_or_BluetoothException (Connection.Close failure connection)) ∧
  (∀ env timeout d,
     returns_or_BluetoothException (Device.OpenConnection env timeout d)) ∧
  (∀ failure adverts output,
     returns_or_BluetoothException (Discovery.ScanDevices failure adverts output)) ∧
  (∀ (body : M Bridge Z) b,
     returns_or_BluetoothException (body b) →
     ∃ status b', Main.exception_handlers body b = Returns status b').
Proof.
  split_and!.
  - intros listener call [g timeout subs]. unfold Characteristic.Subscribe. run.
    destruct subs; run; [|done].
    destruct (Status (task call) (wait_exit call timeout)); run; try done.
    by destruct (GetResults (task call)).
  - intros id call [g timeout subs] Hid. simpl in Hid.
    destruct (lookup_lt_is_Some_2 _ _ Hid) as [token Htoken].
    unfold Characteristic.Unsubscribe. run. rewrite Htoken. run.
    destruct (delete id subs); run; [|done].
    destruct (Status (task call) (wait_exit call timeout)); run; try done.
    by destruct (GetResults (task call)).
  - intros call c.
    destruct (Characteristic_UnsubscribeAll_cases call c)
      as [[_ [c1 ->]] | [_ [message [c1 ->]]]]; done.
  - intros call [g timeout subs]. unfold Characteristic_Read. run.
    destruct (Status (task call) (wait_exit call timeout)); run;
      try (split_and!; [done | done |]; intros data c';
           split; [done | intros (_ & ? & _); done]).
    destruct (GetResults (task call)) as [[] value]; run;
      (split_and!; [done | done |]); intros data c';
      (split; [intros [= <- <-] | intros (-> & _ & ? & ->)]); done.
  - intros call [handle timeout uuid cs]. unfold Service.FetchCharacteristics. run.
    destruct (Status (task call) (wait_exit call timeout)); run; try done.
    by destruct (GetResults (task call)) as [[] found].
  - intros failure connection.
    destruct (Connection_Close_cases failure connection)
      as [[_ [c1 ->]] | [_ [message [c1 ->]]]]; done.
  - intros env timeout d. unfold Device.OpenConnection, Device.connect. run.
    destruct (m_openConnection d); [destruct (cached_is_open env)|]; run; try done.
    all: destruct (Status (task (device_call env)) (wait_exit (device_call env) timeout));
      run; try done.
    all: destruct (Status (task (services_call env))
                     (wait_exit (services_call env) timeout)); run; try done.
    all: by destruct (GetResults (task (services_call env))) as [[] services].
  - intros failure adverts output. unfold Discovery.ScanDevices. run.
    by destruct failure as [[code message]|].
  - intros body b. unfold returns_or_BluetoothException, Main.exception_handlers.
    destruct (body b) as [a b'|[m|m|code m] b'|b'|]; try done; run; eauto.
Qed.

Lemma Bluetooth_failures_witness :
  0 < length (m_subscribers one_listener) ∧
  returns_or_BluetoothException (Characteristic.Unsubscribe 0 write_error one_listener) ∧
  (∃ c, Characteristic.Unsubscribe 0 write_error one_listener
        = Throws (BluetoothException
                    "Bluetooth error. Code: -2147023673. Message: The operation was canceled by the user.")
                 c) ∧
  ∃ status b',
    Main.exception_handlers
      (zoom characteristic Main.set_characteristic
         (Characteristic.Unsubscribe 0 write_error);; mret 0%Z) running_bridge
    = Returns status b'.
Proof.
  assert (H : 0 < length (m_subscribers one_listener)) by (vm_compute; lia).
  split; [exact H|].
  split; [exact (proj1 (proj2 Bluetooth_failures_are_BluetoothExceptions)
                   0 write_error one_listener H)|].
  split; [eexists; reflexivity|].
  apply (proj2 (proj2 (proj2 (proj2 (proj2 (proj2 (proj2 (proj2
           Bluetooth_failures_are_BluetoothExceptions)))))))).
  exact I.
Defined.

(* ================================================================= *)
(** * Opening a serial port *)

(** X18.  The constructor of [COMPort] yields a port exactly when
    [CreateFile], [GetCommState], [SetCommState] and [SetCommTimeouts] all
    succeed.  The port then has the handle, no listener, no thread and a
    refresh interval of 100 ms; the [DCB] applied has the baud rate asked
    for, the data bits reduced to a byte, ONESTOPBIT, ONE5STOPBITS or
    TWOSTOPBITS for one, one and a half or two stop bits, the parity asked
    for, and every other field as [GetCommState] reported it; and each of
    the five timeouts is 1 ms.  Otherwise it throws a [COMException] that
    names the call that failed.  When [CreateFile] itself fails nothing was
    opened; when one of the three later calls fails the handle is not
    closed: it stays open in the operating system, held by no object. *)
Theorem COMPort_new_outcomes
    (env : OpenPortEnv) (number : nat) (baud data : Z)
    (stopBits : StopBits) (parity : Parity) (os : CommSystem) :
  let outcome := PortOpen.COMPort_new env number baud data stopBits parity os in
  (PortOpen.all_succeed env →
     ∃ handle dcb p os' applied,
       CreateFile_handle env = Some handle ∧ GetCommState_dcb env = Some dcb ∧
       outcome = Returns p os' ∧
       m_handle p = Some handle ∧ m_callbacks p = [] ∧
       m_subscriberThread p = NotJoinable ∧ m_refreshRate p = 100 ∧
       m_exiting p = false ∧ port_events p = [] ∧
       open_handles os' = open_handles os ++ [(handle, "COM" +:+ pretty number)] ∧
       comm_state os' = Some applied ∧
       BaudRate applied = baud ∧
       ByteSize applied = (data `mod` 256)%Z ∧
       DcbStopBitsField applied
       = match stopBits with
         | STOP_BITS_ONE => ONESTOPBIT
         | STOP_BITS_ONE_AND_HALF => ONE5STOPBITS
         | STOP_BITS_TWO => TWOSTOPBITS
         end ∧
       DcbParityField applied
       = match parity with
         | PARITY_BITS_NONE => NOPARITY
         | PARITY_BITS_ODD => ODDPARITY
         | PARITY_BITS_EVEN => EVENPARITY
         | PARITY_BITS_MARK => MARKPARITY
         | PARITY_BITS_SPACE => SPACEPARITY
         end ∧
       dcb_rest applied = dcb_rest dcb ∧
       comm_timeouts os'
       = Some {| ReadIntervalTimeout := 1; ReadTotalTimeoutMultiplier := 1;
                 ReadTotalTimeoutConstant := 1; WriteTotalTimeoutMultiplier := 1;
                 WriteTotalTimeoutConstant := 1 |}) ∧
  (¬ PortOpen.all_succeed env →
     ∃ message os',
       outcome = Throws (COMException message) os' ∧
       comm_timeouts os' = comm_timeouts os ∧
       match CreateFile_handle env with
       | None =>
           os' = os ∧ message = "Failed to open port " +:+ ("COM" +:+ pretty number)
       | Some handle =>
           open_handles os' = open_handles os ++ [(handle, "COM" +:+ pretty number)] ∧
           match GetCommState_dcb env with
           | None =>
               comm_state os' = comm_state os ∧
               message = "GetCommState failed with error " +:+ pretty (GetLastError env)
           | Some dcb =>
               if SetCommState_ok env
               then ∃ applied, comm_state os' = Some applied ∧ BaudRate applied = baud ∧
                      message = "SetCommTimeouts failed with error "
                                +:+ pretty (GetLastError env)
               else comm_state os' = comm_state os ∧
                    message = "SetCommState failed with error "
                              +:+ pretty (GetLastError env)
           end
       end).
Proof.
  destruct env as [[handle|] [dcb|] [|] [|] err]; destruct os as [handles state touts];
    unfold PortOpen.all_succeed, PortOpen.COMPort_new; simpl; run; split.
  all: try (intros (Hh & Hd & Hs & Ht); try done;
            first [ by destruct Hh as [? [=]] | by destruct Hd as [? [=]]
                  | (eexists _, _, _, _, _; split_and!; try reflexivity;
                     by destruct stopBits || by destruct parity) ]).
  all: try (intros Hnot; first
      [ (exfalso; apply Hnot; split_and!; eauto; fail)
      | (eexists _, _; split_and!; try reflexivity;
         eexists; split_and!; reflexivity) ]).
Qed.

Lemma COMPort_new_witness :
  ¬ PortOpen.all_succeed busy_port ∧
  (∃ message os',
     PortOpen.COMPort_new busy_port 3 9600 8 STOP_BITS_ONE PARITY_BITS_NONE no_ports
       = Throws (COMException message) os' ∧
     open_handles os' = [(44, "COM3")] ∧
     message = "GetCommState failed with error 5") ∧
  PortOpen.all_succeed
    {| CreateFile_handle := Some 44;
       GetCommState_dcb := Some {| BaudRate := 1200; ByteSize := 7;
                                   DcbStopBitsField := TWOSTOPBITS;
                                   DcbParityField := EVENPARITY; dcb_rest := 9 |};
       SetCommState_ok := true; SetCommTimeouts_ok := true; GetLastError := 0 |} ∧
  ∃ p os',
    PortOpen.COMPort_new
      {| CreateFile_handle := Some 44;
         GetCommState_dcb := Some {| BaudRate := 1200; ByteSize := 7;
                                     DcbStopBitsField := TWOSTOPBITS;
                                     DcbParityField := EVENPARITY; dcb_rest := 9 |};
         SetCommState_ok := true; SetCommTimeouts_ok := true; GetLastError := 0 |}
      3 9600 264 STOP_BITS_ONE_AND_HALF PARITY_BITS_NONE no_ports
    = Returns p os' ∧
    comm_state os' = Some {| BaudRate := 9600; ByteSize := 8;
                             DcbStopBitsField := ONE5STOPBITS;
                             DcbParityField := NOPARITY; dcb_rest := 9 |}.
Proof.
  assert (H : ¬ PortOpen.all_succeed busy_port).
  { intros (_ & [dcb Hd] & _). discriminate Hd. }
  split; [exact H|]. split.
  - destruct (proj2 (COMPort_new_outcomes busy_port 3 9600 8 STOP_BITS_ONE PARITY_BITS_NONE
                       no_ports) H) as (message & os' & Hthrow & _ & Hopen & _ & Hmessage).
    exists message, os'. split; [exact Hthrow|]. split; [exact Hopen | exact Hmessage].
  - match goal with |- PortOpen.all_succeed ?env ∧ _ =>
      assert (Hall : PortOpen.all_succeed env)
        by (split_and!; [by eexists | by eexists | reflexivity | reflexivity]);
      split; [exact Hall|];
      destruct (proj1 (COMPort_new_outcomes env 3 9600 264 STOP_BITS_ONE_AND_HALF
                         PARITY_BITS_NONE no_ports) Hall)
        as (handle & dcb & p & os' & applied & _ & Hdcb & Hret & _ & _ & _ & _ & _ & _ & _
            & Happlied & Hbaud & Hsize & Hstop & Hparity & Hrest & _)
    end.
    exists p, os'. split; [exact Hret|].
    rewrite Happlied. injection Hdcb as <-.
    destruct applied as [b sz st pa rest]. simpl in *.
    by rewrite Hbaud, Hsize, Hstop, Hparity, Hrest.
Defined.

(* ================================================================= *)
(** * A teardown in which nothing fails *)

Lemma Characteristic_UnsubscribeAll_clean call c c1 :
  tokens_consistent c →
  Characteristic.UnsubscribeAll call c = Returns tt c1 →
  m_subscribers c1 = [] ∧ handlers (m_characteristic c1) = [] ∧ disabled c1.
Proof.
  destruct c as [[hs next d reqs evs] timeout subs].
  unfold tokens_consistent, disabled. simpl. intros (<- & _ & _).
  unfold Characteristic.UnsubscribeAll. run.
  unfold Characteristic.on_platform at 2. simpl. rewrite remove_all_handlers.
  destruct (Status (task call) (wait_exit call timeout)); run; try done.
  destruct (GetResults (task call)); run; try done.
  by intros [= <-].
Qed.

Lemma Port_Close_closes p : Port.Close p = Returns tt (Port.set_handle None p).
Proof. destruct p as [[h|] th rate ex cbs evs]; reflexivity. Qed.

(** X19.  When the poll thread ends in time, the disabling write is
    acknowledged and the device closes, the teardown of [Connect] leaves
    nothing behind: all four teardown calls were made, the port has no
    listener, no thread and no handle and its exit flag is set, the
    characteristic has no subscriber and no handler registered with the
    platform and its notifications are disabled, the connection is closed
    and holds no service, exactly "Exiting ..." and "Good bye!" were printed
    and the status is 0.  The destructor of the port, which runs when
    [Connect] returns, then returns at once and changes nothing. *)
Theorem clean_teardown_releases_everything (env : TeardownEnv) (b : Bridge) :
  (∃ p1, Port.UnsubscribeAll (racing env) (port b) = Returns tt p1) →
  write_succeeds (disable_call env) (m_timeout (characteristic b)) →
  close_failure env = None →
  tokens_consistent (characteristic b) →
  ∃ b',
    Main.main_connect env b = Returns 0%Z b' ∧
    attempted b' = attempted b ++ teardown_steps ∧
    m_callbacks (port b') = [] ∧
    m_subscriberThread (port b') = NotJoinable ∧
    m_handle (port b') = None ∧
    m_exiting (port b') = true ∧
    m_subscribers (characteristic b') = [] ∧
    handlers (m_characteristic (characteristic b')) = [] ∧
    disabled (characteristic b') ∧
    connection b' = {| m_services := []; device_closed := true |} ∧
    console b' = console b ++ ["Exiting ..."; "Good bye!"] ∧
    (∀ racing', Port.destroy racing' (port b') = Returns tt (port b')).
Proof.
  destruct b as [p c conn out done_]. destruct env as [rs call failure].
  cbn [racing disable_call close_failure port characteristic connection console attempted].
  intros [p1 Hp1] Hok -> Hcons.
  pose proof (Port_UnsubscribeAll_returns rs p p1 Hp1) as (Hex & Hcbs & Hth).
  destruct (Characteristic_UnsubscribeAll_cases call c)
    as [[_ [c1 Hc1]] | [Hfail _]]; [|done].
  pose proof (Characteristic_UnsubscribeAll_clean call c c1 Hcons Hc1) as (Hs & Hh & Hd).
  unfold Main.main_connect, Main.exception_handlers, Main.Connect_teardown,
    Main.call, Main.print. run. rewrite Hp1. simpl.
  rewrite Port_Close_closes. simpl.
  rewrite Hc1. simpl. unfold Connection.Close. run.
  eexists. split; [reflexivity|]. simpl.
  split_and!; try done.
  - by rewrite <- !app_assoc.
  - by rewrite <- app_assoc.
  - intros racing'. unfold Port.destroy. run.
    rewrite (Port_UnsubscribeAll_again racing' (Port.set_handle None p1)) by done.
    simpl. rewrite Port_Close_closes. reflexivity.
Qed.

Lemma clean_teardown_witness :
  (∃ p1, Port.UnsubscribeAll (racing clean_env) (port running_bridge) = Returns tt p1) ∧
  write_succeeds (disable_call clean_env) (m_timeout (characteristic running_bridge)) ∧
  close_failure clean_env = None ∧
  tokens_consistent (characteristic running_bridge) ∧
  ∃ b', Main.main_connect clean_env running_bridge = Returns 0%Z b' ∧
        m_handle (port b') = None ∧
        connection b' = {| m_services := []; device_closed := true |}.
Proof.
  assert (H1 : ∃ p1, Port.UnsubscribeAll (racing clean_env) (port running_bridge)
                     = Returns tt p1) by (eexists; reflexivity).
  assert (H2 : write_succeeds (disable_call clean_env)
                 (m_timeout (characteristic running_bridge))) by (split; reflexivity).
  assert (H4 : tokens_consistent (characteristic running_bridge)).
  { unfold tokens_consistent. split_and!; [reflexivity | | ];
      apply (bool_decide_unpack _); vm_compute; exact I. }
  split; [exact H1|]. split; [exact H2|]. split; [reflexivity|]. split; [exact H4|].
  destruct (clean_teardown_releases_everything clean_env running_bridge H1 H2 eq_refl H4)
    as (b' & Hret & _ & _ & _ & Hh & _ & _ & _ & _ & Hconn & _).
  exists b'. split; [exact Hret|]. split; [exact Hh | exact Hconn].
Defined.

Lemma chunks_for_poll_events listener p r :
  chunks_for listener (poll_events p r)
  = if decide ((Port.Read r 128).1 = 0) then []
    else replicate (length (filter (λ callback, callback = listener) (m_callbacks p)))
                   (chunk_read r).
Proof.
  unfold poll_events. case_decide; [done|]. apply chunks_for_invocations.
Qed.

(** X20.  [SetRefreshRate] changes the interval and nothing else, and
    [GetRefreshRate] returns what was set.  A polling thread uses the new
    interval from its next sleep on: every sleep after the call lasts the
    new interval, while each listener is handed the same chunks in the same
    order as it would have been without the call. *)
Theorem SetRefreshRate_changes_only_the_sleeps
    (rate : nat) (rs : list ReadFileResult) (p : COMPort) :
  polling p →
  ∃ p',
    Port.SetRefreshRate rate p = Returns tt p' ∧
    Port.GetRefreshRate p' = Returns rate p' ∧
    m_callbacks p' = m_callbacks p ∧
    m_subscriberThread p' = m_subscriberThread p ∧
    port_events p' = port_events p ∧
    m_handle p' = m_handle p ∧
    (∀ listener,
       chunks_for listener (events_since p' (Port.thread_steps rs p'))
       = chunks_for listener (events_since p (Port.thread_steps rs p))) ∧
    Forall (λ e, match e with Sleep milliseconds => milliseconds = rate | _ => True end)
           (events_since p' (Port.thread_steps rs p')).
Proof.
  intros Hp. exists (Port.set_refresh rate p).
  assert (Hp' : polling (Port.set_refresh rate p)) by (by destruct Hp as (? & ? & ?)).
  assert (Hsince : ∀ q, polling q →
            events_since q (Port.thread_steps rs q) = rs ≫= poll_events q).
  { intros q Hq. rewrite thread_steps_polling by done.
    unfold events_since. simpl. by rewrite drop_app_length. }
  rewrite !Hsince by done. clear Hsince. split_and!; try reflexivity.
  - intros listener. induction rs as [|r rs IH]; [done|].
    rewrite !bind_cons, !chunks_for_app, IH. f_equal.
    by rewrite !chunks_for_poll_events.
  - induction rs as [|r rs IH]; [by apply Forall_nil|].
    rewrite bind_cons. apply Forall_app. split; [|done].
    unfold poll_events. case_decide; [by apply Forall_singleton|].
    apply Forall_fmap, Forall_forall. done.
Qed.

Lemma SetRefreshRate_witness :
  polling port_ABC ∧
  events_since (Port.set_refresh 250 port_ABC)
    (Port.thread_steps [ReadSucceeded []; ReadSucceeded chunk_3] (Port.set_refresh 250 port_ABC))
  = [Sleep 250; Invoke "A" chunk_3; Invoke "B" chunk_3; Invoke "C" chunk_3] ∧
  ∃ p', Port.SetRefreshRate 250 port_ABC = Returns tt p' ∧
        Port.GetRefreshRate p' = Returns 250 p'.
Proof.
  assert (H : polling port_ABC).
  { split_and!; [reflexivity | reflexivity | intros H; discriminate H]. }
  split; [exact H|]. split; [reflexivity|].
  destruct (SetRefreshRate_changes_only_the_sleeps 250 [] port_ABC H)
    as (p' & Hset & Hget & _).
  exists p'. split; [exact Hset | exact Hget].
Defined.

(* ================================================================= *)
(** * Instances of the statements above *)

Lemma Port_Subscribe_then_Unsubscribe_witness :
  ∃ p1 p2,
    Port.Subscribe "D" port_ABC = Returns 3 p1 ∧
    m_callbacks p1 = ["A"; "B"; "C"; "D"] ∧
    Port.Unsubscribe 3 p1 = Returns tt p2 ∧
    m_callbacks p2 = m_callbacks port_ABC.
Proof.
  eexists _, _. split; [reflexivity|].
  destruct (Port_Subscribe_then_Unsubscribe "D" port_ABC _ 3 eq_refl)
    as (_ & Hcbs & _ & _ & _ & _ & _ & _ & Hback).
  split; [exact Hcbs|]. split; [reflexivity|].
  exact (Hback _ eq_refl).
Defined.

Lemma BluetoothAddressToString_shape_witness :
  length (BluetoothAddressToString sample_address) = 17 ∧
  BluetoothAddressToString sample_address !! 2 = Some ":"%char.
Proof.
  destruct (BluetoothAddressToString_shape sample_address) as (Hlen & Hcolon & _).
  split; [exact Hlen|]. apply Hcolon.
  apply elem_of_cons. by left.
Defined.

Lemma OpenConnection_never_caches_witness :
  Device.GetOpenConnection true
    (Device.after_calls [(sample_open, 5)] (Device.constructed sample_address "HMSoft"))
  = None.
Proof.
  exact (proj1 (proj2 (OpenConnection_never_caches sample_address "HMSoft"
                         [(sample_open, 5)] sample_open 5)) true).
Defined.

Lemma GetCharacteristic_first_match_witness :
  ∃ c,
    Service.GetCharacteristic sample_uuid twin_service = Some c ∧
    m_uuid <$> m_characteristics twin_service = [vendor_uuid; sample_uuid; sample_uuid] ∧
    m_characteristics twin_service !! 1 = Some c ∧
    m_characteristics twin_service !! 2 ≠ Some c ∧
    m_uuid c = sample_uuid ∧
    ∃ i, m_characteristics twin_service !! i = Some c ∧
         ∀ j c', j < i → m_characteristics twin_service !! j = Some c' →
                 m_uuid c' ≠ sample_uuid.
Proof.
  eexists. split; [reflexivity|]. split; [reflexivity|]. split; [reflexivity|].
  split; [discriminate|].
  exact (proj1 (proj2 (GetCharacteristic_first_match sample_uuid twin_service)) _ eq_refl).
Defined.

Lemma ScanDevices_witness :
  ∃ found,
    Discovery.ScanDevices None sample_adverts [] = Returns tt ([] ++ found) ∧
    NoDup (m_deviceAddress <$> [] ++ found).
Proof.
  destruct (ScanDevices_lists_each_address_once sample_adverts [])
    as (found & Hret & Hnd & _).
  exists found. split; [exact Hret|]. apply Hnd. apply NoDup_nil_2.
Defined.

(* ================================================================= *)
(** * FindDevice *)

Lemma result_at_address address env t d :
  Find.result_at address env t = Some d →
  m_deviceAddress d = address ∧
  ∃ arrival, arrival ∈ arrivals env ∧ arrival.1 ≤ t ∧ d = Discovery.received arrival.2.
Proof.
  unfold Find.result_at. intros Hres.
  apply fmap_Some in Hres as (args & Hlast & ->).
  apply last_Some in Hlast as [front Hfront].
  assert (Hin : args ∈ (filter (λ a, a.1 ≤ t ∧ AdvertisedAddress a.2 = address)
                          (arrivals env)).*2).
  { rewrite Hfront. apply elem_of_app. right. by apply list_elem_of_singleton. }
  apply list_elem_of_fmap in Hin as (arrival & -> & Hin).
  apply list_elem_of_filter in Hin as [[Ht Haddr] Hin].
  split; [done|]. by exists arrival.
Qed.

Lemma result_at_found address env t arrival :
  arrival ∈ arrivals env → arrival.1 ≤ t → AdvertisedAddress arrival.2 = address →
  is_Some (Find.result_at address env t).
Proof.
  intros Hin Ht Haddr. unfold Find.result_at. apply fmap_is_Some.
  assert (Hne : (filter (λ a, a.1 ≤ t ∧ AdvertisedAddress a.2 = address)
                   (arrivals env)).*2 ≠ []).
  { intros Hnil. apply fmap_nil_inv in Hnil.
    assert (arrival ∈ filter (λ a, a.1 ≤ t ∧ AdvertisedAddress a.2 = address)
                        (arrivals env)) as Hf by (by apply list_elem_of_filter).
    rewrite Hnil in Hf. by apply elem_of_nil in Hf. }
  destruct (_.*2) as [|x xs] using rev_ind; [done|].
  rewrite last_snoc. eauto.
Qed.

Lemma find_wait_range address env deadline wakes now :
  now ≤ deadline → now ≤ Find.wait address env deadline wakes now ≤ deadline.
Proof.
  revert now. induction wakes as [|d wakes IH]; intros now Hle; simpl.
  - case_decide; lia.
  - case_decide; [|lia]. case_bool_decide; [lia|].
    specialize (IH (Nat.min deadline (now + d))). lia.
Qed.

Lemma find_wait_leaves address env deadline wakes now :
  now ≤ deadline →
  let t := Find.wait address env deadline wakes now in
  t = deadline ∨ is_Some (Find.result_at address env t).
Proof.
  revert now. induction wakes as [|d wakes IH]; intros now Hle; simpl.
  - case_decide; [by left | left; lia].
  - case_decide; [|left; lia]. case_bool_decide; [by right|].
    apply IH. lia.
Qed.

(** X21.  [FindDevice] gives up no later than [timelimit] seconds after it
    started, and what it returns is decided by what was advertised until
    then: it returns a device exactly when an advertisement from the
    requested address arrived by the deadline, and [nullopt] otherwise,
    having waited the full time.  A device it returns always has the
    requested address and is built from an advertisement that arrived by the
    deadline.  (All this for a watcher that raises nothing.) *)
Theorem FindDevice_finds_what_is_advertised
    (address : Z) (timelimit : nat) (env : FindEnv) :
  find_failure env = None →
  let left := Find.left_at address env timelimit in
  ∃ result,
    (∀ S (s : S), Find.FindDevice address timelimit env s = Returns result s) ∧
    find_now env ≤ left ≤ Find.deadline env timelimit ∧
    (is_Some result ↔
       ∃ arrival, arrival ∈ arrivals env ∧ arrival.1 ≤ Find.deadline env timelimit ∧
                  AdvertisedAddress arrival.2 = address) ∧
    (result = None → left = Find.deadline env timelimit) ∧
    (∀ d, result = Some d →
          m_deviceAddress d = address ∧
          ∃ arrival, arrival ∈ arrivals env ∧ arrival.1 ≤ Find.deadline env timelimit ∧
                     d = Discovery.received arrival.2).
Proof.
  intros Hok left.
  assert (Hrange : find_now env ≤ left ≤ Find.deadline env timelimit).
  { apply find_wait_range. unfold Find.deadline. lia. }
  assert (Hleaves : left = Find.deadline env timelimit ∨
                    is_Some (Find.result_at address env left)).
  { apply find_wait_leaves. unfold Find.deadline. lia. }
  exists (Find.result_at address env left). split_and!.
  - intros S s. unfold Find.FindDevice. rewrite Hok. reflexivity.
  - lia.
  - lia.
  - split.
    + intros [d Hd]. destruct (result_at_address _ _ _ _ Hd) as (_ & arrival & Hin & Ht & ->).
      exists arrival. split; [done|]. split; [lia|].
      unfold Find.result_at in Hd. apply fmap_Some in Hd as (args & Hlast & Heq).
      apply last_Some in Hlast as [front Hfront].
      assert (Hargs : args ∈ (filter (λ a, a.1 ≤ left ∧ AdvertisedAddress a.2 = address)
                                (arrivals env)).*2).
      { rewrite Hfront. apply elem_of_app. right. by apply list_elem_of_singleton. }
      apply list_elem_of_fmap in Hargs as (arrival' & -> & Hin').
      apply list_elem_of_filter in Hin' as [[_ Haddr] _].
      assert (m_deviceAddress (Discovery.received arrival.2)
              = m_deviceAddress (Discovery.received arrival'.2)) as Hsame by (by rewrite Heq).
      simpl in Hsame. by rewrite Hsame.
    + intros (arrival & Hin & Ht & Haddr).
      destruct Hleaves as [Hdead | Hfound]; [|done].
      eapply result_at_found; [done | | done]. lia.
  - intros Hnone. destruct Hleaves as [Hdead | Hfound]; [done|].
    rewrite Hnone in Hfound. by destruct Hfound.
  - intros d Hd. destruct (result_at_address _ _ _ _ Hd) as (Haddr & arrival & Hin & Ht & ->).
    split; [done|]. exists arrival. split; [done|]. split; [lia | done].
Qed.

Lemma FindDevice_witness :
  find_failure sample_find = None ∧
  ∃ result,
    (∀ S (s : S), Find.FindDevice 0xC4BE84A1F203 1 sample_find s = Returns result s) ∧
    (is_Some result ↔
       ∃ arrival, arrival ∈ arrivals sample_find ∧
                  arrival.1 ≤ Find.deadline sample_find 1 ∧
                  AdvertisedAddress arrival.2 = 0xC4BE84A1F203%Z).
Proof.
  split; [reflexivity|].
  destruct (FindDevice_finds_what_is_advertised 0xC4BE84A1F203 1 sample_find eq_refl)
    as (result & Hret & _ & Hiff & _).
  exists result. split; [exact Hret | exact Hiff].
Defined.

(* ================================================================= *)
(** * The arguments of the connect command *)

Example connect_command_arguments :
  connect_arguments connect_command
  = Some {| connect_addr := sample_address; connect_serviceId := 0xFFE0;
            connect_characteristicId := 0xFFE1; connect_portNumber := 3;
            connect_timeout := 5; connect_baud := 9600; connect_data := 8;
            connect_stopBits := STOP_BITS_ONE; connect_parity := PARITY_BITS_NONE;
            connect_refresh := 100 |}.
Proof. vm_compute. reflexivity. Qed.

(** A negative port number or timeout is accepted by [std::stoi] and reaches
    [Connect] as a large unsigned number. *)
Example connect_negative_arguments :
  StringToInt (GetStringOrDefault connect_negative 5 "") = Converted (-3) ∧
  StringToInt (GetStringOrDefault connect_negative 6 "5") = Converted (-1) ∧
  ∃ a, connect_arguments connect_negative = Some a ∧
       connect_portNumber a = 4294967293%Z ∧
       connect_timeout a = 4294967295%Z.
Proof.
  split; [vm_compute; reflexivity|]. split; [vm_compute; reflexivity|].
  eexists. split; [vm_compute; reflexivity|]. split; reflexivity.
Qed.

Lemma to_uint32_range value : (0 ≤ to_uint32 value < 2 ^ 32)%Z.
Proof. unfold to_uint32. apply Z.mod_pos_bound. lia. Qed.

Lemma stoi_range base str value :
  stoi base str = Converted value → (- 2 ^ 31 ≤ value < 2 ^ 31)%Z.
Proof.
  unfold stoi. destruct (skip_sign (skip_spaces str)) as [negative s0].
  destruct (digits_prefix base 0 0 _) as [v count].
  destruct (decide (count = 0)); [done|].
  case_decide as Hrange; [done|]. intros [= <-]. lia.
Qed.

Lemma converted_Some c value : converted c = Some value ↔ c = Converted value.
Proof. destruct c; simpl; split; congruence. Qed.

Lemma GetStringOrDefault_absent args index def :
  argc args ≤ index → GetStringOrDefault args index def = String.list_ascii_of_string def.
Proof. intros Hle. unfold GetStringOrDefault. by rewrite decide_True. Qed.

Lemma GetStringOrDefault_present args index def :
  index < argc args →
  argv args !! index = Some (GetStringOrDefault args index def).
Proof.
  intros Hlt. unfold GetStringOrDefault. rewrite decide_False by lia.
  destruct (lookup_lt_is_Some_2 (argv args) index Hlt) as [s Hs].
  rewrite Hs. f_equal. symmetry. by apply nth_lookup_Some with (d := []).
Qed.

(** X22.  [main] accepts the connect command from four arguments on, but
    the characteristic id and the port number have the empty text as their
    default, which no conversion accepts: with fewer than six arguments one
    of the conversions throws and [Connect] is never entered.  With exactly
    six, the remaining parameters take the defaults 5 s, 9600 baud, 8 data
    bits, one stop bit, no parity and 100 ms.  The two ids, the port number,
    the timeout, the baud rate and the data bits reach [Connect] as the
    [int] that [std::stoi] returned, reduced modulo 2^32 (so a negative
    argument arrives as a large unsigned number); the refresh interval keeps
    its sign.  An argument that is present is always read from its own
    position, never past the end of [argv]. *)
Theorem connect_needs_six_arguments (args : ParamHelper) :
  (argc args < 6 → connect_arguments args = None) ∧
  (argc args ≤ 6 → ∀ a, connect_arguments args = Some a →
     connect_timeout a = 5%Z ∧ connect_baud a = 9600%Z ∧ connect_data a = 8%Z ∧
     connect_stopBits a = STOP_BITS_ONE ∧ connect_parity a = PARITY_BITS_NONE ∧
     connect_refresh a = 100%Z) ∧
  (∀ a, connect_arguments args = Some a →
     ∃ serviceId characteristicId portNumber timeout baud data,
       stoi 16 (GetStringOrDefault args 3 "") = Converted serviceId ∧
       stoi 16 (GetStringOrDefault args 4 "") = Converted characteristicId ∧
       StringToInt (GetStringOrDefault args 5 "") = Converted portNumber ∧
       StringToInt (GetStringOrDefault args 6 "5") = Converted timeout ∧
       StringToInt (GetStringOrDefault args 7 "9600") = Converted baud ∧
       StringToInt (GetStringOrDefault args 8 "8") = Converted data ∧
       StringToInt (GetStringOrDefault args 11 "100") = Converted (connect_refresh a) ∧
       connect_serviceId a = (serviceId `mod` 2 ^ 32)%Z ∧
       connect_characteristicId a = (characteristicId `mod` 2 ^ 32)%Z ∧
       connect_portNumber a = (portNumber `mod` 2 ^ 32)%Z ∧
       connect_timeout a = (timeout `mod` 2 ^ 32)%Z ∧
       connect_baud a = (baud `mod` 2 ^ 32)%Z ∧
       connect_data a = (data `mod` 2 ^ 32)%Z ∧
       (0 ≤ connect_portNumber a < 2 ^ 32)%Z ∧
       (0 ≤ connect_timeout a < 2 ^ 32)%Z ∧
       (- 2 ^ 31 ≤ connect_refresh a < 2 ^ 31)%Z) ∧
  (∀ index def, index < argc args →
     argv args !! index = Some (GetStringOrDefault args index def)).
Proof.
  split_and!.
  - intros Hargc. unfold connect_arguments.
    rewrite (GetStringOrDefault_absent args 5 "") by lia.
    destruct (converted (BluetoothAddressFromString _)); [|done]. simpl.
    destruct (converted (stoi 16 (GetStringOrDefault args 3 ""))); [|done]. simpl.
    destruct (converted (stoi 16 (GetStringOrDefault args 4 ""))); done.
  - intros Hargc a. unfold connect_arguments.
    rewrite (GetStringOrDefault_absent args 6 "5"),
            (GetStringOrDefault_absent args 7 "9600"),
            (GetStringOrDefault_absent args 8 "8"),
            (GetStringOrDefault_absent args 9 "1"),
            (GetStringOrDefault_absent args 10 "none"),
            (GetStringOrDefault_absent args 11 "100") by lia.
    destruct (converted (BluetoothAddressFromString _)); [|done]. simpl.
    destruct (converted (stoi 16 (GetStringOrDefault args 3 ""))); [|done]. simpl.
    destruct (converted (stoi 16 (GetStringOrDefault args 4 ""))); [|done]. simpl.
    destruct (converted (StringToInt (GetStringOrDefault args 5 ""))); [|done]. simpl.
    intros [= <-]. simpl. split_and!; reflexivity.
  - intros a. unfold connect_arguments.
    destruct (converted (BluetoothAddressFromString _)); [|done]. simpl.
    destruct (converted (stoi 16 (GetStringOrDefault args 3 ""))) as [serviceId|] eqn:H3;
      [|done]. simpl.
    destruct (converted (stoi 16 (GetStringOrDefault args 4 ""))) as [characteristicId|] eqn:H4;
      [|done]. simpl.
    destruct (converted (StringToInt (GetStringOrDefault args 5 ""))) as [portNumber|] eqn:H5;
      [|done]. simpl.
    destruct (converted (StringToInt (GetStringOrDefault args 6 "5"))) as [timeout|] eqn:H6;
      [|done]. simpl.
    destruct (converted (StringToInt (GetStringOrDefault args 7 "9600"))) as [baud|] eqn:H7;
      [|done]. simpl.
    destruct (converted (StringToInt (GetStringOrDefault args 8 "8"))) as [data|] eqn:H8;
      [|done]. simpl.
    destruct (parsed (StopBitsFromString _)); [|done]. simpl.
    destruct (parsed (ParityFromString _)); [|done]. simpl.
    destruct (converted (StringToInt (GetStringOrDefault args 11 "100"))) as [refresh|] eqn:H11;
      [|done]. simpl.
    intros [= <-]. simpl.
    apply converted_Some in H3, H4, H5, H6, H7, H8, H11.
    exists serviceId, characteristicId, portNumber, timeout, baud, data.
    split_and!; try done; try apply to_uint32_range.
    all: by apply (stoi_range 10 _ _ H11).
  - intros index def. apply GetStringOrDefault_present.
Qed.

Lemma connect_needs_six_arguments_witness :
  argc {| argv := take 5 (argv connect_command) |} < 6 ∧
  connect_arguments {| argv := take 5 (argv connect_command) |} = None ∧
  ∃ a portNumber,
    connect_arguments connect_negative = Some a ∧
    StringToInt (GetStringOrDefault connect_negative 5 "") = Converted portNumber ∧
    connect_portNumber a = (portNumber `mod` 2 ^ 32)%Z.
Proof.
  assert (H : argc {| argv := take 5 (argv connect_command) |} < 6) by (vm_compute; lia).
  split; [exact H|].
  split; [exact (proj1 (connect_needs_six_arguments _) H)|].
  assert (Ha : connect_arguments connect_negative
               = Some {| connect_addr := sample_address; connect_serviceId := 0xFFE0;
                         connect_characteristicId := 0xFFE1;
                         connect_portNumber := 4294967293; connect_timeout := 4294967295;
                         connect_baud := 9600; connect_data := 8;
                         connect_stopBits := STOP_BITS_ONE;
                         connect_parity := PARITY_BITS_NONE; connect_refresh := 100 |})
    by (vm_compute; reflexivity).
  destruct (proj1 (proj2 (proj2 (connect_needs_six_arguments connect_negative))) _ Ha)
    as (serviceId & characteristicId & portNumber & timeout & baud & data &
        _ & _ & H5 & _ & _ & _ & _ & _ & _ & Hport & _).
  eexists _, portNumber. split; [exact Ha|]. split; [exact H5 | exact Hport].
Defined.
